(** * VideoPlayerScreen: gesture and seek logic

    A shallow embedding of the control logic of [VideoPlayerScreen]
    (the screen with the HLS player): the relative seeks, the time
    formatter, the seekbar press and drag handlers, the position poll,
    the single/double tap detector and the overlay auto-hide effects.

    Conventions of the embedding:
    - a JavaScript number is a [num]: an exact rational, one of the two
      infinities, or NaN.  Rounding of doubles and the sign of zero are
      abstracted away; everything else (NaN propagation, division by
      zero, comparisons with NaN) follows the language;
    - React state and refs of the component are the fields of [State];
      a handler is a function [State -> State];
    - the clock is an integer number of milliseconds, [Date.now ()]. *)

From Stdlib Require Import ZArith QArith Qround Qminmax Lqa Lia.
From Stdlib Require Import Bool List Sorted.
From Stdlib Require Import Ascii String DecimalString.
From Stdlib Require DecimalPos DecimalZ.
Import ListNotations.

(** ** JavaScript numbers *)

Module Num.

Inductive num : Type :=
| NaN
| NegInf
| Fin (q : Q)
| PosInf.

Definition of_Z (z : Z) : num := Fin (inject_Z z).

Definition isNaN (a : num) : bool :=
  match a with NaN => true | _ => false end.

(** [!!a]: zero and NaN are the falsy numbers. *)
Definition truthy (a : num) : bool :=
  match a with
  | NaN => false
  | Fin q => negb (Qeq_bool q 0)
  | NegInf | PosInf => true
  end.

(** [a || b] on numbers. *)
Definition or_else (a b : num) : num := if truthy a then a else b.

Definition Qltb (p q : Q) : bool := negb (Qle_bool q p).

(** [a < b]; any comparison with NaN is false. *)
Definition lt (a b : num) : bool :=
  match a, b with
  | NaN, _ | _, NaN => false
  | _, NegInf => false
  | NegInf, _ => true
  | PosInf, _ => false
  | Fin _, PosInf => true
  | Fin p, Fin q => Qltb p q
  end.

(** [a > b]. *)
Definition gt (a b : num) : bool := lt b a.

Definition add (a b : num) : num :=
  match a, b with
  | NaN, _ | _, NaN => NaN
  | PosInf, NegInf | NegInf, PosInf => NaN
  | PosInf, _ | _, PosInf => PosInf
  | NegInf, _ | _, NegInf => NegInf
  | Fin p, Fin q => Fin (p + q)
  end.

Definition neg (a : num) : num :=
  match a with
  | NaN => NaN
  | NegInf => PosInf
  | PosInf => NegInf
  | Fin q => Fin (- q)
  end.

Definition sub (a b : num) : num := add a (neg b).

(** Sign of a number that is not NaN, as a comparison with zero. *)
Definition sign (a : num) : comparison :=
  match a with
  | NaN => Eq
  | NegInf => Lt
  | PosInf => Gt
  | Fin q => q ?= 0
  end.

Definition inf_of_sign (c : comparison) : num :=
  match c with Lt => NegInf | Gt => PosInf | Eq => NaN end.

Definition sign_mul (c d : comparison) : comparison :=
  match c, d with
  | Eq, _ | _, Eq => Eq
  | Lt, Lt | Gt, Gt => Gt
  | Lt, Gt | Gt, Lt => Lt
  end.

(** [a * b]; an infinity times zero is NaN. *)
Definition mul (a b : num) : num :=
  match a, b with
  | NaN, _ | _, NaN => NaN
  | Fin p, Fin q => Fin (p * q)
  | _, _ => inf_of_sign (sign_mul (sign a) (sign b))
  end.

(** [a / b]; a finite non-zero number over zero is an infinity, zero
    over zero and infinity over infinity are NaN. *)
Definition div (a b : num) : num :=
  match a, b with
  | NaN, _ | _, NaN => NaN
  | Fin p, Fin q =>
      if Qeq_bool q 0 then inf_of_sign (p ?= 0) else Fin (p / q)
  | Fin _, _ => Fin 0
  | _, Fin q =>
      inf_of_sign (sign_mul (sign a) (match q ?= 0 with Lt => Lt | _ => Gt end))
  | _, _ => NaN
  end.

(** [Math.min (a, b)] and [Math.max (a, b)]: NaN if an argument is NaN. *)
Definition Math_min (a b : num) : num :=
  match a, b with
  | NaN, _ | _, NaN => NaN
  | _, _ => if lt b a then b else a
  end.

Definition Math_max (a b : num) : num :=
  match a, b with
  | NaN, _ | _, NaN => NaN
  | _, _ => if lt a b then b else a
  end.

(** Equality of numbers up to the representation of the rational. *)
Definition eqv (a b : num) : Prop :=
  match a, b with
  | NaN, NaN | NegInf, NegInf | PosInf, PosInf => True
  | Fin p, Fin q => p == q
  | _, _ => False
  end.

(** [between lo hi a]: [a] is a finite number of the closed interval. *)
Definition between (lo hi : Q) (a : num) : Prop :=
  match a with
  | Fin q => lo <= q /\ q <= hi
  | _ => False
  end.

(** [le a b]: both are numbers and [a <= b]. *)
Definition le (a b : num) : Prop :=
  match a, b with
  | NaN, _ | _, NaN => False
  | NegInf, _ | _, PosInf => True
  | Fin p, Fin q => p <= q
  | _, _ => False
  end.

End Num.

Import Num.

Declare Scope num_scope.
Delimit Scope num_scope with num.
Infix "+" := Num.add : num_scope.
Infix "-" := Num.sub : num_scope.
Infix "*" := Num.mul : num_scope.
Infix "/" := Num.div : num_scope.
Infix "<?" := Num.lt : num_scope.
Infix ">?" := Num.gt (at level 70) : num_scope.
Bind Scope num_scope with num.
Infix "=n=" := Num.eqv (at level 70).

Coercion of_Z : Z >-> num.

(** ** Constants *)

Definition DOUBLE_TAP_DELAY : Z := 300.
Definition PLAY_PAUSE_OVERLAY_DURATION : Z := 2500.
Definition SEEK_INDICATOR_DURATION : Z := 1000.
Definition PLAYER_UPDATE_INTERVAL : Z := 100.

(** ** The player object and the component state *)

(** The object returned by [useVideoPlayer]; the fields the screen reads
    and writes. *)
Record Player : Type := mkPlayer {
  p_currentTime : num;
  p_duration : num;
  p_playing : bool;
  p_muted : bool;
  p_status : string
}.

Inductive Direction : Type := forward | backward.

(** The [useState] cells of the component, the player and [lastTapRef].
    [screenWidth] is [screenData.width]; [player] is [None] for a null
    player. *)
Record State : Type := mkState {
  player : option Player;
  isMuted : bool;
  isPlaying : bool;
  currentTime : num;
  duration : num;
  showPlayPauseOverlay : bool;
  seekbarValue : num;
  isDragging : bool;
  showSeekIndicator : bool;
  seekDirection : option Direction;
  screenWidth : num;
  seekbarPosition : num;
  isBuffering : bool;
  lastTapRef : option Z
}.

Definition set_player (p : option Player) (s : State) : State :=
  mkState p (isMuted s) (isPlaying s) (currentTime s) (duration s)
    (showPlayPauseOverlay s) (seekbarValue s) (isDragging s)
    (showSeekIndicator s) (seekDirection s) (screenWidth s)
    (seekbarPosition s) (isBuffering s) (lastTapRef s).

Definition setIsMuted (v : bool) (s : State) : State :=
  mkState (player s) v (isPlaying s) (currentTime s) (duration s)
    (showPlayPauseOverlay s) (seekbarValue s) (isDragging s)
    (showSeekIndicator s) (seekDirection s) (screenWidth s)
    (seekbarPosition s) (isBuffering s) (lastTapRef s).

Definition setIsPlaying (v : bool) (s : State) : State :=
  mkState (player s) (isMuted s) v (currentTime s) (duration s)
    (showPlayPauseOverlay s) (seekbarValue s) (isDragging s)
    (showSeekIndicator s) (seekDirection s) (screenWidth s)
    (seekbarPosition s) (isBuffering s) (lastTapRef s).

Definition setCurrentTime (v : num) (s : State) : State :=
  mkState (player s) (isMuted s) (isPlaying s) v (duration s)
    (showPlayPauseOverlay s) (seekbarValue s) (isDragging s)
    (showSeekIndicator s) (seekDirection s) (screenWidth s)
    (seekbarPosition s) (isBuffering s) (lastTapRef s).

Definition setDuration (v : num) (s : State) : State :=
  mkState (player s) (isMuted s) (isPlaying s) (currentTime s) v
    (showPlayPauseOverlay s) (seekbarValue s) (isDragging s)
    (showSeekIndicator s) (seekDirection s) (screenWidth s)
    (seekbarPosition s) (isBuffering s) (lastTapRef s).

Definition setShowPlayPauseOverlay (v : bool) (s : State) : State :=
  mkState (player s) (isMuted s) (isPlaying s) (currentTime s) (duration s)
    v (seekbarValue s) (isDragging s)
    (showSeekIndicator s) (seekDirection s) (screenWidth s)
    (seekbarPosition s) (isBuffering s) (lastTapRef s).

Definition setSeekbarValue (v : num) (s : State) : State :=
  mkState (player s) (isMuted s) (isPlaying s) (currentTime s) (duration s)
    (showPlayPauseOverlay s) v (isDragging s)
    (showSeekIndicator s) (seekDirection s) (screenWidth s)
    (seekbarPosition s) (isBuffering s) (lastTapRef s).

Definition setIsDragging (v : bool) (s : State) : State :=
  mkState (player s) (isMuted s) (isPlaying s) (currentTime s) (duration s)
    (showPlayPauseOverlay s) (seekbarValue s) v
    (showSeekIndicator s) (seekDirection s) (screenWidth s)
    (seekbarPosition s) (isBuffering s) (lastTapRef s).

Definition setShowSeekIndicator (v : bool) (s : State) : State :=
  mkState (player s) (isMuted s) (isPlaying s) (currentTime s) (duration s)
    (showPlayPauseOverlay s) (seekbarValue s) (isDragging s)
    v (seekDirection s) (screenWidth s)
    (seekbarPosition s) (isBuffering s) (lastTapRef s).

Definition setSeekDirection (v : option Direction) (s : State) : State :=
  mkState (player s) (isMuted s) (isPlaying s) (currentTime s) (duration s)
    (showPlayPauseOverlay s) (seekbarValue s) (isDragging s)
    (showSeekIndicator s) v (screenWidth s)
    (seekbarPosition s) (isBuffering s) (lastTapRef s).

Definition setSeekbarPosition (v : num) (s : State) : State :=
  mkState (player s) (isMuted s) (isPlaying s) (currentTime s) (duration s)
    (showPlayPauseOverlay s) (seekbarValue s) (isDragging s)
    (showSeekIndicator s) (seekDirection s) (screenWidth s)
    v (isBuffering s) (lastTapRef s).

Definition setIsBuffering (v : bool) (s : State) : State :=
  mkState (player s) (isMuted s) (isPlaying s) (currentTime s) (duration s)
    (showPlayPauseOverlay s) (seekbarValue s) (isDragging s)
    (showSeekIndicator s) (seekDirection s) (screenWidth s)
    (seekbarPosition s) v (lastTapRef s).

Definition set_lastTapRef (v : option Z) (s : State) : State :=
  mkState (player s) (isMuted s) (isPlaying s) (currentTime s) (duration s)
    (showPlayPauseOverlay s) (seekbarValue s) (isDragging s)
    (showSeekIndicator s) (seekDirection s) (screenWidth s)
    (seekbarPosition s) (isBuffering s) v.

(** Assignments to the fields of the player object. *)
Definition set_p_currentTime (v : num) (p : Player) : Player :=
  mkPlayer v (p_duration p) (p_playing p) (p_muted p) (p_status p).

Definition set_p_playing (v : bool) (p : Player) : Player :=
  mkPlayer (p_currentTime p) (p_duration p) v (p_muted p) (p_status p).

Definition set_p_muted (v : bool) (p : Player) : Player :=
  mkPlayer (p_currentTime p) (p_duration p) (p_playing p) v (p_status p).

(** The state of the first render: every [useState] initial value. *)
Definition initialState (p : Player) (width : num) : State :=
  mkState (Some p) false false 0%Z 0%Z false 0%Z false false None width
    0%Z false None.

(** ** Video control functions *)

(** [player.play ()] and [player.pause ()] set the [playing] flag. *)
Definition togglePlayPause (s : State) : State :=
  match player s with
  | None => s
  | Some p =>
      if p_playing p
      then setIsPlaying false (set_player (Some (set_p_playing false p)) s)
      else setIsPlaying true (set_player (Some (set_p_playing true p)) s)
  end.

Definition toggleMute (s : State) : State :=
  match player s with
  | None => s
  | Some p =>
      let newMutedState := negb (isMuted s) in
      setIsMuted newMutedState
        (set_player (Some (set_p_muted newMutedState p)) s)
  end.

(** Seek forward by 10 seconds. *)
Definition seekForward (s : State) : State :=
  match player s with
  | None => s
  | Some p =>
      let newPosition := Math_min (p_currentTime p + 10%Z)%num (p_duration p) in
      setCurrentTime newPosition
        (set_player (Some (set_p_currentTime newPosition p)) s)
  end.

(** Seek backward by 10 seconds. *)
Definition seekBackward (s : State) : State :=
  match player s with
  | None => s
  | Some p =>
      let newPosition := Math_max (p_currentTime p - 10%Z)%num 0%Z in
      setCurrentTime newPosition
        (set_player (Some (set_p_currentTime newPosition p)) s)
  end.

(** The playback position held by the player object after a handler. *)
Definition position (s : State) : num :=
  match player s with
  | None => NaN
  | Some p => p_currentTime p
  end.

(** A state whose player is at [current] out of [dur] seconds. *)
Definition playing_at (current dur : Q) (s : State) : Prop :=
  exists p, player s = Some p /\
            p_currentTime p = Fin current /\ p_duration p = Fin dur.

(** ** Formatting a time *)

(** The values [formatTime] is called with: a number, or a missing value. *)
Inductive jsval : Type :=
| JUndefined
| JNull
| JNum (n : num).

(** Integer-valued numbers: the results of [Math.floor] and of [%] on
    them.  Keeping them apart from [num] lets [toString] be exact. *)
Inductive inum : Type :=
| INaN
| INegInf
| IInt (z : Z)
| IPosInf.

Definition of_inum (i : inum) : num :=
  match i with
  | INaN => NaN
  | INegInf => NegInf
  | IInt z => of_Z z
  | IPosInf => PosInf
  end.

Definition Math_floor (a : num) : inum :=
  match a with
  | NaN => INaN
  | NegInf => INegInf
  | Fin q => IInt (Qfloor q)
  | PosInf => IPosInf
  end.

(** [a % b] on integer-valued numbers: the remainder has the sign of the
    dividend; it is NaN for an infinite dividend or a zero divisor. *)
Definition rem (a b : inum) : inum :=
  match a, b with
  | INaN, _ | _, INaN => INaN
  | INegInf, _ | IPosInf, _ => INaN
  | IInt x, IInt y => if (y =? 0)%Z then INaN else IInt (Z.rem x y)
  | IInt x, _ => IInt x
  end.

(** An integer in decimal notation. *)
Definition decimal (z : Z) : string := NilZero.string_of_int (Z.to_int z).

(** [n.toString ()] for an integer-valued number.  The digits are those
    JavaScript prints for a safe integer, below 2^53 in absolute value;
    beyond that a double no longer holds every integer and JavaScript
    prints the shortest digits that read back, with an exponent from
    10^21.  What is proved of a printed number is stated below 2^53. *)
Definition Number_toString (i : inum) : string :=
  match i with
  | INaN => "NaN"
  | INegInf => "-Infinity"
  | IInt z => decimal z
  | IPosInf => "Infinity"
  end.

Fixpoint repeat_char (c : ascii) (n : nat) : string :=
  match n with
  | O => EmptyString
  | S n' => String c (repeat_char c n')
  end.

(** [s.padStart (targetLength, c)] for a one-character pad. *)
Definition padStart (targetLength : nat) (c : ascii) (s : string) : string :=
  (repeat_char c (targetLength - String.length s) ++ s)%string.

(** [!v] *)
Definition falsy (v : jsval) : bool :=
  match v with
  | JUndefined | JNull => true
  | JNum n => negb (truthy n)
  end.

(** The global [isNaN (v)], which first converts [v] to a number:
    [undefined] becomes NaN and [null] becomes 0. *)
Definition global_isNaN (v : jsval) : bool :=
  match v with
  | JUndefined => true
  | JNull => false
  | JNum n => isNaN n
  end.

Definition toNumber (v : jsval) : num :=
  match v with
  | JUndefined => NaN
  | JNull => 0%Z
  | JNum n => n
  end.

(** Format seconds into M:SS. *)
Definition formatTime (seconds : jsval) : string :=
  if falsy seconds || global_isNaN seconds then "0:00"%string
  else
    let totalSeconds := Math_floor (toNumber seconds) in
    let minutes := Math_floor (of_inum totalSeconds / 60%Z)%num in
    let secs := rem totalSeconds (IInt 60) in
    (Number_toString minutes ++ ":"
       ++ padStart 2 "0"%char (Number_toString secs))%string.


(** ** Touch handlers *)

(** Single tap: show the play/pause overlay and toggle playback. *)
Definition handleSingleTap (s : State) : State :=
  togglePlayPause (setShowPlayPauseOverlay true s).

(** Double tap: seek backward or forward according to the half of the
    video that was tapped. *)
Definition handleDoubleTap (locationX : num) (s : State) : State :=
  let videoWidth := screenWidth s in
  let isLeftHalf := (locationX <? videoWidth / 2%Z)%num in
  setShowSeekIndicator true
    (if isLeftHalf
     then setSeekDirection (Some backward) (seekBackward s)
     else setSeekDirection (Some forward) (seekForward s)).

(** ** The seekbar *)

(** What [seekbarTrackRef.current.measure] passes to its callback. *)
Record Layout : Type := mkLayout {
  trackWidth : num;
  pageX : num
}.

(** The fraction of the track at which a touch at page abscissa
    [evtPageX] falls: the expression bound to [newProgress] in the press
    and pan handlers. *)
Definition newProgress (evtPageX : num) (m : Layout) : num :=
  let touchX := (evtPageX - pageX m)%num in
  Math_max 0%Z (Math_min 1%Z (touchX / trackWidth m)%num).

(** Seek to the pressed position.  [seekbarTrackRef] is [None] while the
    track is not mounted. *)
Definition handleSeekbarPress (seekbarTrackRef : option Layout)
    (evtPageX : num) (s : State) : State :=
  match seekbarTrackRef with
  | None => s
  | Some m =>
      let np := newProgress evtPageX m in
      let s1 :=
        setSeekbarPosition (np * trackWidth m)%num (setSeekbarValue np s) in
      match player s1 with
      | Some p =>
          if (duration s >? 0%Z)%num then
            let newTime := (np * duration s)%num in
            setCurrentTime newTime
              (set_player (Some (set_p_currentTime newTime p)) s1)
          else s1
      | None => s1
      end
  end.

(** The pan responder is created once, by the first render, and kept in
    a ref: its callbacks read the [duration] and [seekbarValue] of the
    render that created them. *)
Record Closure : Type := mkClosure {
  c_duration : num;
  c_seekbarValue : num
}.

Definition firstRender : Closure := mkClosure 0%Z 0%Z.

Definition onPanResponderGrant (seekbarTrackRef : option Layout)
    (evtPageX : num) (s : State) : State :=
  let s1 := setIsDragging true s in
  match seekbarTrackRef with
  | None => s1
  | Some m =>
      let np := newProgress evtPageX m in
      setSeekbarPosition (np * trackWidth m)%num (setSeekbarValue np s1)
  end.

Definition onPanResponderMove (seekbarTrackRef : option Layout)
    (evtPageX : num) (s : State) : State :=
  match seekbarTrackRef with
  | None => s
  | Some m =>
      let np := newProgress evtPageX m in
      setSeekbarPosition (np * trackWidth m)%num (setSeekbarValue np s)
  end.

Definition onPanResponderRelease (c : Closure) (s : State) : State :=
  let s1 :=
    match player s with
    | Some p =>
        if (c_duration c >? 0%Z)%num then
          let newTime := (c_seekbarValue c * c_duration c)%num in
          setCurrentTime newTime
            (set_player (Some (set_p_currentTime newTime p)) s)
        else s
    | None => s
    end in
  setIsDragging false s1.

(** The time shown under the seekbar. *)
Definition displayedTime (s : State) : string :=
  formatTime (JNum (if isDragging s then (seekbarValue s * duration s)%num
                    else currentTime s)).

(** ** Polling the player *)

Section Polling.

(** [moderateScale (16)], a value of the size-matters library. *)
Variable seekbarPadding : num.

Definition seekbarWidth (s : State) : num :=
  (screenWidth s - seekbarPadding * 2%Z)%num.

(** The callback of the [setInterval] of the polling effect.  The effect
    is re-created whenever [isDragging] changes, so the callback sees
    the current value of the flag. *)
Definition pollTick (s : State) : State :=
  match player s with
  | None => s
  | Some p =>
      if negb (isDragging s) then
        let time := or_else (p_currentTime p) 0%Z in
        let dur := or_else (p_duration p) 0%Z in
        let s1 :=
          setIsPlaying (p_playing p)
            (setDuration dur (setCurrentTime time s)) in
        (* status = player.status || 'idle'; status === 'loading' *)
        let s2 := setIsBuffering (String.eqb (p_status p) "loading") s1 in
        if (dur >? 0%Z)%num then
          let progress := (time / dur)%num in
          setSeekbarPosition (progress * seekbarWidth s)%num
            (setSeekbarValue progress s2)
        else s2
      else s
  end.

(** Events of a drag gesture, interleaved with ticks of the poll. *)
Inductive DragEvent : Type :=
| Move (seekbarTrackRef : option Layout) (evtPageX : num)
| Tick.

Definition dragStep (s : State) (e : DragEvent) : State :=
  match e with
  | Move r x => onPanResponderMove r x s
  | Tick => pollTick s
  end.

Definition isMove (e : DragEvent) : bool :=
  match e with Move _ _ => true | Tick => false end.

End Polling.

(** ** Single and double taps *)

Module Tap.

(** What [handleVideoTap] resolved a tap to: the call of
    [handleSingleTap], or the call of [handleDoubleTap] together with
    its [isLeftHalf].  The list of these calls is kept next to the state
    as a record of what the detector did. *)
Inductive Classification : Type :=
| Single
| Double (isLeftHalf : bool).

(** A pending [setTimeout] of [handleVideoTap]: its expiry and the [now]
    its callback captured. *)
Record Timer : Type := mkTimer {
  due : Z;
  now_of : Z
}.

Record World : Type := mkWorld {
  comp : State;
  timers : list Timer;
  emitted : list Classification
}.

Definition initialWorld (s : State) : World := mkWorld s [] [].

(** [setTimeout]: timers are kept by expiry, in order of creation among
    equal expiries. *)
Fixpoint setTimeout (tm : Timer) (q : list Timer) : list Timer :=
  match q with
  | [] => [tm]
  | x :: q' => if (due x <=? due tm)%Z then x :: setTimeout tm q' else tm :: q
  end.

(** [lastTapRef.current && (now - lastTapRef.current < DOUBLE_TAP_DELAY)]:
    [null] and the number 0 are falsy. *)
Definition isDoubleTap (now : Z) (lastTap : option Z) : bool :=
  match lastTap with
  | None => false
  | Some last => negb (last =? 0)%Z && (now - last <? DOUBLE_TAP_DELAY)%Z
  end.

(** [lastTapRef.current === now] *)
Definition isLastTap (now : Z) (lastTap : option Z) : bool :=
  match lastTap with
  | None => false
  | Some last => (last =? now)%Z
  end.

Definition isLeftHalf (locationX : num) (s : State) : bool :=
  (locationX <? screenWidth s / 2%Z)%num.

(** Tap on the video area, [now] being [Date.now ()]. *)
Definition handleVideoTap (now : Z) (locationX : num) (w : World) : World :=
  if isDoubleTap now (lastTapRef (comp w)) then
    mkWorld (set_lastTapRef None (handleDoubleTap locationX (comp w)))
            (timers w)
            (emitted w ++ [Double (isLeftHalf locationX (comp w))])
  else
    mkWorld (set_lastTapRef (Some now) (comp w))
            (setTimeout (mkTimer (now + DOUBLE_TAP_DELAY) now) (timers w))
            (emitted w).

(** The callback given to [setTimeout] by the tap at [now]. *)
Definition onTimeout (now : Z) (w : World) : World :=
  if isLastTap now (lastTapRef (comp w)) then
    mkWorld (set_lastTapRef None (handleSingleTap (comp w)))
            (timers w)
            (emitted w ++ [Single])
  else w.

(** The event loop up to time [t]: the timers that have expired by [t]
    run, in order of expiry; the others stay.  [q] is the timer queue
    still to be examined. *)
Fixpoint fire (t : Z) (q : list Timer) (w : World) : World :=
  match q with
  | [] => mkWorld (comp w) [] (emitted w)
  | tm :: q' =>
      if (due tm <=? t)%Z then fire t q' (onTimeout (now_of tm) w)
      else mkWorld (comp w) q (emitted w)
  end.

Definition advance (t : Z) (w : World) : World := fire t (timers w) w.

(** A tap observed at time [t], with [tap] below: the schedule in which
    every timer runs on time, so that what had expired by [t] has run.
    [setTimeout] itself only promises that a callback does not run
    before its delay; the schedules in which a callback runs late are
    those of [Schedule]. *)
Record TapEvent : Type := mkTap {
  timestampMs : Z;
  xPosition : num
}.

Definition tap (w : World) (e : TapEvent) : World :=
  handleVideoTap (timestampMs e) (xPosition e) (advance (timestampMs e) w).

(** Every pending timer runs. *)
Fixpoint settle (q : list Timer) (w : World) : World :=
  match q with
  | [] => mkWorld (comp w) [] (emitted w)
  | tm :: q' => settle q' (onTimeout (now_of tm) w)
  end.

(** A sequence of taps, then nothing more for long enough. *)
Definition run (taps : list TapEvent) (w : World) : World :=
  let w' := fold_left tap taps w in
  settle (timers w') w'.

Definition classify (taps : list TapEvent) (s : State) : list Classification :=
  emitted (run taps (initialWorld s)).

Fixpoint tapsOf (l : list Classification) : nat :=
  match l with
  | [] => 0
  | Single :: l' => 1 + tapsOf l'
  | Double _ :: l' => 2 + tapsOf l'
  end.

End Tap.

(** ** Auto-hide of the overlays *)

Module Overlay.

(** The part of the component an auto-hide effect works on: the flag
    ([showPlayPauseOverlay] or [showSeekIndicator]), the ref holding the
    timer handle, and the timers that are pending, each with its handle
    and its expiry.  Handles are positive, as [setTimeout] returns them. *)
Record Overlay : Type := mkOverlay {
  shown : bool;
  timeoutRef : option positive;
  pending : list (positive * Z);
  nextHandle : positive
}.

Definition initialOverlay : Overlay := mkOverlay false None [] 1%positive.

Definition clearTimeout (h : positive) (o : Overlay) : Overlay :=
  mkOverlay (shown o) (timeoutRef o)
    (filter (fun e => negb (Pos.eqb (fst e) h)) (pending o)) (nextHandle o).

(** [if (ref.current) clearTimeout (ref.current)] *)
Definition clearRef (o : Overlay) : Overlay :=
  match timeoutRef o with
  | Some h => clearTimeout h o
  | None => o
  end.

Section Effect.

(** [PLAY_PAUSE_OVERLAY_DURATION] or [SEEK_INDICATOR_DURATION]. *)
Variable delay : Z.

(** The body of the effect, run at time [t]. *)
Definition effectBody (t : Z) (o : Overlay) : Overlay :=
  if shown o then
    let o1 := clearRef o in
    mkOverlay (shown o1) (Some (nextHandle o1))
      (pending o1 ++ [(nextHandle o1, (t + delay)%Z)])
      (Pos.succ (nextHandle o1))
  else o.

(** The function the effect returns, run before its next execution. *)
Definition effectCleanup (o : Overlay) : Overlay := clearRef o.

(** The state setter.  The effect lists the flag as its only dependency:
    React runs the cleanup and the body again after a render in which
    the flag has changed, and skips the effect otherwise.  Here a render
    follows each call of the setter at once; two calls of the setter
    between two renders are the matter of [Batched]. *)
Definition setShown (v : bool) (t : Z) (o : Overlay) : Overlay :=
  if Bool.eqb v (shown o) then o
  else
    effectBody t
      (effectCleanup (mkOverlay v (timeoutRef o) (pending o) (nextHandle o))).

(** The timers that have expired by [t] run, each at its expiry: the
    callback hides the overlay.  [fuel] bounds the number of timers. *)
Fixpoint expire (fuel : nat) (t : Z) (o : Overlay) : Overlay :=
  match fuel with
  | O => o
  | S fuel' =>
      match pending o with
      | [] => o
      | (h, d) :: rest =>
          if (d <=? t)%Z then
            expire fuel' t
              (setShown false d
                 (mkOverlay (shown o) (timeoutRef o) rest (nextHandle o)))
          else o
      end
  end.

Definition advance (t : Z) (o : Overlay) : Overlay :=
  expire (S (List.length (pending o))) t o.

(** A trigger at time [t]: [setShowPlayPauseOverlay (true)] of
    [handleSingleTap], or [setShowSeekIndicator (true)] of
    [handleDoubleTap]. *)
Definition trigger (o : Overlay) (t : Z) : Overlay :=
  setShown true t (advance t o).

(** Is the overlay on screen at time [t], after triggers at [ts]? *)
Definition visibleAt (ts : list Z) (t : Z) : bool :=
  shown (advance t (fold_left trigger ts initialOverlay)).

End Effect.

Definition playPauseOverlayVisibleAt : list Z -> Z -> bool :=
  visibleAt PLAY_PAUSE_OVERLAY_DURATION.

Definition seekIndicatorVisibleAt : list Z -> Z -> bool :=
  visibleAt SEEK_INDICATOR_DURATION.

End Overlay.

(** ** Taps and timers in any order *)

Module Schedule.

Import Tap.

(** What the event loop runs next: the press handler, [now] being its
    reading of [Date.now ()], or the callback of a pending timer, the
    one at place [k] of the queue. *)
Inductive Event : Type :=
| Tapped (now : Z) (locationX : num)
| Expired (k : nat).

(** Which taps a call of [handleSingleTap] or [handleDoubleTap] is
    about, by their timestamps: the tap recorded in [lastTapRef], and
    for a double tap also the tap being handled. *)
Inductive Resolution : Type :=
| SingleOf (now : Z)
| DoubleOf (first second : Z).

(** The detector, the time reached so far, and the resolutions made, a
    record kept next to the state like [emitted]. *)
Record Loop : Type := mkLoop {
  world : World;
  clock : Z;
  resolved : list Resolution
}.

Fixpoint remove_nth (k : nat) (q : list Timer) : list Timer :=
  match k, q with
  | _, [] => []
  | O, _ :: q' => q'
  | S k', x :: q' => x :: remove_nth k' q'
  end.

(** The resolution made by [handleVideoTap], if it takes the branch of
    the double tap. *)
Definition resolveTap (now : Z) (lastTap : option Z) : list Resolution :=
  match lastTap with
  | Some last => if isDoubleTap now lastTap then [DoubleOf last now] else []
  | None => []
  end.

(** The resolution made by the callback of the timer of the tap at
    [now], if it still finds that timestamp in [lastTapRef]. *)
Definition resolveTimeout (now : Z) (lastTap : option Z) : list Resolution :=
  if isLastTap now lastTap then [SingleOf now] else [].

(** One turn of the event loop.  Time does not go back: a press is
    handled no earlier than anything before it, and a callback runs no
    earlier than the expiry of its timer, but as late as the loop
    pleases.  A turn that breaks this, or that names a timer that is
    not pending, is no turn: [None]. *)
Definition step (l : Loop) (e : Event) : option Loop :=
  match e with
  | Tapped now x =>
      if (clock l <=? now)%Z then
        Some (mkLoop (handleVideoTap now x (world l)) now
                (resolved l ++ resolveTap now (lastTapRef (comp (world l)))))
      else None
  | Expired k =>
      match nth_error (timers (world l)) k with
      | Some tm =>
          Some (mkLoop
                  (onTimeout (now_of tm)
                     (mkWorld (comp (world l))
                        (remove_nth k (timers (world l)))
                        (emitted (world l))))
                  (Z.max (clock l) (due tm))
                  (resolved l
                     ++ resolveTimeout (now_of tm)
                          (lastTapRef (comp (world l)))))
      | None => None
      end
  end.

Fixpoint exec (sch : list Event) (l : Loop) : option Loop :=
  match sch with
  | [] => Some l
  | e :: sch' =>
      match step l e with
      | Some l' => exec sch' l'
      | None => None
      end
  end.

(** The loop at time [c], with the detector of the state [s]. *)
Definition start (s : State) (c : Z) : Loop := mkLoop (initialWorld s) c [].

(** The presses of a schedule, in order. *)
Fixpoint presses (sch : list Event) : list TapEvent :=
  match sch with
  | [] => []
  | Tapped now x :: sch' => mkTap now x :: presses sch'
  | Expired _ :: sch' => presses sch'
  end.

End Schedule.

(** ** Auto-hide with renders of their own *)

Module Batched.

(** The auto-hide effect with the render made explicit: [flag] is the
    state as the setters have left it, [rendered] the flag that the
    last render saw, and so what is on screen; the pending timers are
    known by their handles. *)
Record Overlay : Type := mkOverlay {
  flag : bool;
  rendered : bool;
  timeoutRef : option positive;
  pending : list positive;
  nextHandle : positive
}.

Definition initialOverlay : Overlay :=
  mkOverlay false false None [] 1%positive.

Definition clearTimeout (h : positive) (o : Overlay) : Overlay :=
  mkOverlay (flag o) (rendered o) (timeoutRef o)
    (filter (fun h' => negb (Pos.eqb h' h)) (pending o)) (nextHandle o).

(** [if (ref.current) clearTimeout (ref.current)] *)
Definition clearRef (o : Overlay) : Overlay :=
  match timeoutRef o with
  | Some h => clearTimeout h o
  | None => o
  end.

(** The body of the effect. *)
Definition effectBody (o : Overlay) : Overlay :=
  if flag o then
    let o1 := clearRef o in
    mkOverlay (flag o1) (rendered o1) (Some (nextHandle o1))
      (pending o1 ++ [nextHandle o1]) (Pos.succ (nextHandle o1))
  else o.

(** The function the effect returns. *)
Definition effectCleanup (o : Overlay) : Overlay := clearRef o.

(** A render.  The effect has the flag as its only dependency: it runs
    again, cleanup first, when the flag differs from the one the last
    render saw, and is skipped otherwise. *)
Definition render (o : Overlay) : Overlay :=
  if Bool.eqb (flag o) (rendered o) then o
  else
    let o1 := effectBody (effectCleanup o) in
    mkOverlay (flag o1) (flag o1) (timeoutRef o1) (pending o1) (nextHandle o1).

(** The callback of the oldest pending timer, if any: the setter called
    with [false]. *)
Definition timeout (o : Overlay) : Overlay :=
  match pending o with
  | [] => o
  | _ :: rest =>
      mkOverlay false (rendered o) (timeoutRef o) rest (nextHandle o)
  end.

(** A trigger: the setter called with [true]. *)
Definition trigger (o : Overlay) : Overlay :=
  mkOverlay true (rendered o) (timeoutRef o) (pending o) (nextHandle o).

Inductive Event : Type :=
| Trigger
| Timeout
| Render.

Definition step (o : Overlay) (e : Event) : Overlay :=
  match e with
  | Trigger => trigger o
  | Timeout => timeout o
  | Render => render o
  end.

Definition run (evs : list Event) : Overlay :=
  fold_left step evs initialOverlay.

End Batched.

(** ** The thumb of the seekbar *)

Section Thumb.

(** [moderateScale (8)], half of the width of the thumb. *)
Variable thumbRadius : num.

(** The [left] style of the thumb. *)
Definition thumbLeft (s : State) : num :=
  Math_max 0%Z (seekbarPosition s - thumbRadius)%num.

End Thumb.

(** ** The screen with the web view and the notifications *)

Module WebView.

(** [Math.max] on integer-valued numbers. *)
Definition Math_max_int (a b : inum) : inum :=
  match a, b with
  | INaN, _ | _, INaN => INaN
  | IPosInf, _ | _, IPosInf => IPosInf
  | INegInf, x | x, INegInf => x
  | IInt x, IInt y => IInt (Z.max x y)
  end.

(** The request handed to [Notifications.scheduleNotificationAsync].
    [data_screen] is [content.data?.screen]; the trigger is of type
    [timeInterval]. *)
Record Content : Type := mkContent {
  title : string;
  body : string;
  sound : bool;
  data_screen : option string
}.

Record Trigger : Type := mkTrigger {
  seconds : inum;
  repeats : bool
}.

Record Request : Type := mkRequest {
  content : Content;
  trigger : Trigger
}.

(** The [useState] cells of the screen, and what it has asked of the
    platform so far: the notifications scheduled, the alerts raised and
    the routes navigated to, oldest first. *)
Record Screen : Type := mkScreen {
  loading : bool;
  snackbarVisible : bool;
  snackbarMessage : string;
  scheduled : list Request;
  alerts : list (string * string);
  navigated : list string
}.

Definition initialScreen : Screen :=
  mkScreen true false EmptyString [] [] [].

Definition setLoading (v : bool) (st : Screen) : Screen :=
  mkScreen v (snackbarVisible st) (snackbarMessage st) (scheduled st)
    (alerts st) (navigated st).

Definition Alert_alert (t m : string) (st : Screen) : Screen :=
  mkScreen (loading st) (snackbarVisible st) (snackbarMessage st)
    (scheduled st) (alerts st ++ [(t, m)]) (navigated st).

Definition navigate (route : string) (st : Screen) : Screen :=
  mkScreen (loading st) (snackbarVisible st) (snackbarMessage st)
    (scheduled st) (alerts st) (navigated st ++ [route]).

(** The delay of a notification: [Math.max (1, Math.floor (Number (d)))]. *)
Definition delayOf (delaySeconds : jsval) : inum :=
  Math_max_int (IInt 1) (Math_floor (toNumber delaySeconds)).

Definition requestOf (title body : string) (delaySeconds : jsval) : Request :=
  mkRequest (mkContent title body true (Some "VideoPlayer"%string))
            (mkTrigger (delayOf delaySeconds) false).

(** Schedule a notification.  [accepted] tells whether the promise of
    [scheduleNotificationAsync] is fulfilled; a rejection is caught. *)
Definition scheduleNotification (accepted : bool) (title body : string)
    (delaySeconds : jsval) (st : Screen) : Screen :=
  let delay := delayOf delaySeconds in
  if accepted then
    mkScreen (loading st) true
      ("Notification scheduled! It will appear in "
         ++ Number_toString delay ++ " seconds.")%string
      (scheduled st ++ [requestOf title body delaySeconds])
      (alerts st) (navigated st)
  else Alert_alert "Error" "Failed to schedule notification" st.

(** The listener of [addNotificationResponseReceivedListener], given the
    [data?.screen] of the notification that was tapped. *)
Definition onNotificationResponse (screen : option string) (st : Screen)
    : Screen :=
  match screen with
  | Some name => if String.eqb name "VideoPlayer" then navigate "VideoPlayer" st
                 else st
  | None => st
  end.

Section Handlers.

(** The texts of a notification, fixed at each call site. *)
Variables title body : string.

Definition handleLoadEnd (accepted : bool) (st : Screen) : Screen :=
  scheduleNotification accepted title body (JNum 2%Z) (setLoading false st).

Definition handleNotification1 (accepted : bool) (st : Screen) : Screen :=
  scheduleNotification accepted title body (JNum 3%Z) st.

Definition handleNotification2 (accepted : bool) (st : Screen) : Screen :=
  scheduleNotification accepted title body (JNum 4%Z) st.

End Handlers.

Definition handleWebViewError (st : Screen) : Screen :=
  Alert_alert "Error" "Failed to load the website" (setLoading false st).

End WebView.

(** ** The first version of the player screen *)

Module Legacy.

(** The playback status reported by the video component; a field that
    the status does not have yet reads as [undefined]. *)
Record Status : Type := mkStatus {
  positionMillis : jsval;
  durationMillis : jsval;
  isPlaying : bool
}.

(** The status before the first update, [{}]. *)
Definition emptyStatus : Status := mkStatus JUndefined JUndefined false.

(** [status.positionMillis || 0] *)
Definition currentPosition (st : Status) : num :=
  if falsy (positionMillis st) then 0%Z else toNumber (positionMillis st).

(** The position [seekForward] asks the video for: 10 seconds forward. *)
Definition seekForward (st : Status) : num :=
  (currentPosition st + 10000%Z)%num.

(** The position [seekBackward] asks the video for: 10 seconds backward. *)
Definition seekBackward (st : Status) : num :=
  Math_max 0%Z (currentPosition st - 10000%Z)%num.

End Legacy.

(** ** Definitions on the side of the specification *)

(** [clamp x lo hi], as the specification words it: [x] brought back to
    the nearest bound when it lies outside of [lo, hi]. *)
Definition clamp (x lo hi : Q) : Q :=
  if Qltb x lo then lo else if Qltb hi x then hi else x.

Definition digit (z : Z) : ascii :=
  ascii_of_nat (48 + Z.to_nat z).

(** A number of seconds below 100 written with exactly two digits. *)
Definition two_digits (z : Z) : string :=
  String (digit (z / 10)) (String (digit (z mod 10)) EmptyString).

(** A state whose player object is [p]. *)
Definition stateOf (p : Player) : State := initialState p 360%Z.

Definition playerAt (current dur : Z) : Player :=
  mkPlayer current dur true false "readyToPlay".

(** The taps the detector has seen and still owes a resolution: the one
    recorded in [lastTapRef], if any. *)
Definition pendingTaps (s : State) : nat :=
  match lastTapRef s with
  | Some _ => 1
  | None => 0
  end.

(** [accounted n q w]: of the [n] taps seen so far, each one is covered
    by a resolution already made or is the pending one; and the pending
    tap, if any, still has its timer in the queue [q]. *)
Definition accounted (n : nat) (q : list Tap.Timer) (w : Tap.World) : Prop :=
  (Tap.tapsOf (Tap.emitted w) + pendingTaps (Tap.comp w))%nat = n /\
  (forall t0, lastTapRef (Tap.comp w) = Some t0 ->
     t0 <> 0%Z /\ In (Tap.mkTimer (t0 + DOUBLE_TAP_DELAY) t0) q).

(** Timers in order of expiry. *)
Definition ordered (q : list Tap.Timer) : Prop :=
  StronglySorted (fun a b => (Tap.due a <= Tap.due b)%Z) q.

(** The timestamps of the taps that resolutions are about. *)
Fixpoint stamps (r : list Schedule.Resolution) : list Z :=
  match r with
  | [] => []
  | Schedule.SingleOf t :: r' => t :: stamps r'
  | Schedule.DoubleOf t t' :: r' => t :: t' :: stamps r'
  end.

(** Is a resolution, or a classification, a single tap? *)
Definition isSingleOf (r : Schedule.Resolution) : bool :=
  match r with
  | Schedule.SingleOf _ => true
  | Schedule.DoubleOf _ _ => false
  end.

Definition isSingle (c : Tap.Classification) : bool :=
  match c with
  | Tap.Single => true
  | Tap.Double _ => false
  end.

(** [resolved_once seen l]: the resolutions made so far are about taps
    that were seen, no tap twice; the tap in [lastTapRef], if any, was
    seen and is not resolved yet; and the record of resolutions goes
    along with the record of handler calls. *)
Definition resolved_once (seen : list Z) (l : Schedule.Loop) : Prop :=
  NoDup (stamps (Schedule.resolved l)) /\
  incl (stamps (Schedule.resolved l)) seen /\
  (forall t0, lastTapRef (Tap.comp (Schedule.world l)) = Some t0 ->
     In t0 seen /\ ~ In t0 (stamps (Schedule.resolved l))) /\
  map isSingleOf (Schedule.resolved l)
  = map isSingle (Tap.emitted (Schedule.world l)).

(** At most one timer is pending; the ref holds its handle, and the
    flag and the last render both say that the overlay is shown. *)
Definition one_timer (o : Batched.Overlay) : Prop :=
  match Batched.pending o with
  | [] => True
  | [h] => Batched.timeoutRef o = Some h /\
           Batched.flag o = true /\ Batched.rendered o = true
  | _ => False
  end.

(** * Properties *)

(** Projections of a state built by the setters. *)
Ltac simpl_state :=
  cbn [player isMuted isPlaying currentTime duration showPlayPauseOverlay
       seekbarValue isDragging showSeekIndicator seekDirection screenWidth
       seekbarPosition isBuffering lastTapRef
       set_player setIsMuted setIsPlaying setCurrentTime setDuration
       setShowPlayPauseOverlay setSeekbarValue setIsDragging
       setShowSeekIndicator setSeekDirection setSeekbarPosition
       setIsBuffering set_lastTapRef negb].

(** ** Numbers *)

Lemma Qltb_true (p q : Q) : Qltb p q = true <-> p < q.
Proof.
  unfold Qltb. rewrite negb_true_iff. split; intro H.
  - apply Qnot_le_lt. intro L. apply Qle_bool_iff in L. congruence.
  - destruct (Qle_bool q p) eqn:E; trivial.
    apply Qle_bool_iff in E. exfalso. apply (Qlt_not_le _ _ H E).
Qed.

Lemma Qltb_false (p q : Q) : Qltb p q = false <-> q <= p.
Proof.
  unfold Qltb. rewrite negb_false_iff. apply Qle_bool_iff.
Qed.

Lemma Qltb_spec (p q : Q) : BoolSpec (p < q) (q <= p) (Qltb p q).
Proof.
  destruct (Qltb p q) eqn:E; constructor.
  - now apply Qltb_true.
  - now apply Qltb_false.
Qed.

Lemma Qeq_bool_spec (p q : Q) : BoolSpec (p == q) (~ p == q) (Qeq_bool p q).
Proof.
  destruct (Qeq_bool p q) eqn:E; constructor.
  - now apply Qeq_bool_iff.
  - now apply Qeq_bool_neq.
Qed.

Lemma Math_min_Fin (p q : Q) :
  exists r, Math_min (Fin p) (Fin q) = Fin r /\ r == Qmin p q.
Proof.
  unfold Math_min, lt. destruct (Qltb_spec q p) as [H | H].
  - exists q. split; trivial. symmetry. apply Q.min_r. now apply Qlt_le_weak.
  - exists p. split; trivial. symmetry. now apply Q.min_l.
Qed.

Lemma Math_max_Fin (p q : Q) :
  exists r, Math_max (Fin p) (Fin q) = Fin r /\ r == Qmax p q.
Proof.
  unfold Math_max, lt. destruct (Qltb_spec p q) as [H | H].
  - exists q. split; trivial. symmetry. apply Q.max_r. now apply Qlt_le_weak.
  - exists p. split; trivial. symmetry. now apply Q.max_l.
Qed.

(** ** Relative seeks *)

Lemma position_seekForward (s : State) (p : Player) :
  player s = Some p ->
  position (seekForward s)
  = Math_min (p_currentTime p + 10%Z)%num (p_duration p).
Proof. intro H. unfold seekForward, position. now rewrite H. Qed.

Lemma position_seekBackward (s : State) (p : Player) :
  player s = Some p ->
  position (seekBackward s) = Math_max (p_currentTime p - 10%Z)%num 0%Z.
Proof. intro H. unfold seekBackward, position. now rewrite H. Qed.

Lemma seekForward_target (s : State) (cur dur : Q) :
  playing_at cur dur s ->
  exists r, position (seekForward s) = Fin r /\ r == Qmin (cur + 10) dur.
Proof.
  intros (p & Hp & Hc & Hd). rewrite (position_seekForward _ _ Hp), Hc, Hd.
  apply (Math_min_Fin (cur + inject_Z 10) dur).
Qed.

Lemma seekBackward_target (s : State) (cur dur : Q) :
  playing_at cur dur s ->
  exists r, position (seekBackward s) = Fin r /\ r == Qmax (cur - 10) 0.
Proof.
  intros (p & Hp & Hc & Hd). rewrite (position_seekBackward _ _ Hp), Hc.
  destruct (Math_max_Fin (cur + - inject_Z 10) (inject_Z 0)) as (r & E & Hr).
  exists r. split; [exact E | exact Hr].
Qed.

Lemma playing_at_stateOf (cur dur : Z) :
  playing_at (inject_Z cur) (inject_Z dur) (stateOf (playerAt cur dur)).
Proof. exists (playerAt cur dur). repeat split. Qed.

(** C1, as stated, fails: with the player at 50 s of a stream whose
    duration is still 0, [seekBackward] moves to 40 s, outside of
    [0, duration]. *)
Lemma seekBackward_above_duration :
  playing_at 50 0 (stateOf (playerAt 50 0)) /\
  position (seekBackward (stateOf (playerAt 50 0))) = Fin (50 + - 10) /\
  ~ between 0 0 (position (seekBackward (stateOf (playerAt 50 0)))).
Proof.
  split; [apply (playing_at_stateOf 50 0) |].
  split; [reflexivity |].
  cbn. intros [_ H]. revert H. apply Qlt_not_le. reflexivity.
Qed.

(** C1, amended: for [current >= 0] and [duration >= 0] the target of
    [seekForward] is [min (current + 10, duration)] and lies in
    [0, duration]; the target of [seekBackward] is
    [max (current - 10, 0)] and lies in [0, current], hence in
    [0, duration] as soon as [current - 10 <= duration]; each handler
    stores the target in both the player and the [currentTime] state.
    From 95 of 100 seconds the forward seek gives 100, from 5 seconds
    the backward seek gives 0. *)
Theorem relative_seek_range (s : State) (cur dur : Q) :
  playing_at cur dur s -> 0 <= cur -> 0 <= dur ->
  position (seekForward s) =n= Fin (Qmin (cur + 10) dur) /\
  position (seekBackward s) =n= Fin (Qmax (cur - 10) 0) /\
  between 0 dur (position (seekForward s)) /\
  between 0 cur (position (seekBackward s)) /\
  (cur - 10 <= dur -> between 0 dur (position (seekBackward s))) /\
  currentTime (seekForward s) = position (seekForward s) /\
  currentTime (seekBackward s) = position (seekBackward s) /\
  (cur == 95 -> dur == 100 -> position (seekForward s) =n= Fin 100) /\
  (cur == 5 -> position (seekBackward s) =n= Fin 0).
Proof.
  intros H Hc Hd.
  destruct (seekForward_target _ _ _ H) as (f & Ef & Hf).
  destruct (seekBackward_target _ _ _ H) as (b & Eb & Hb).
  destruct H as (p & Hp & _).
  assert (Cf : currentTime (seekForward s) = position (seekForward s))
    by (unfold seekForward, position; rewrite Hp; reflexivity).
  assert (Cb : currentTime (seekBackward s) = position (seekBackward s))
    by (unfold seekBackward, position; rewrite Hp; reflexivity).
  rewrite Cf, Cb, Ef, Eb. cbn [between eqv].
  split; [exact Hf |]. split; [exact Hb |].
  destruct (Q.min_spec (cur + 10) dur) as [[? E1] | [? E1]];
    destruct (Q.max_spec (cur - 10) 0) as [[? E2] | [? E2]];
    rewrite E1 in Hf; rewrite E2 in Hb;
    (repeat split; trivial; intros; lra).
Qed.

Lemma relative_seek_range_witness :
  position (seekForward (stateOf (playerAt 95 100)))
  =n= Fin (Qmin (95 + 10) 100) /\
  position (seekBackward (stateOf (playerAt 95 100)))
  =n= Fin (Qmax (95 - 10) 0) /\
  between 0 100 (position (seekForward (stateOf (playerAt 95 100)))) /\
  position (seekForward (stateOf (playerAt 95 100))) =n= Fin 100.
Proof.
  destruct (@relative_seek_range (stateOf (playerAt 95 100)) 95 100)
    as (T1 & T2 & F & _ & _ & _ & _ & E & _).
  - apply (playing_at_stateOf 95 100).
  - discriminate.
  - discriminate.
  - split; [exact T1 |]. split; [exact T2 |].
    split; [exact F | apply E; reflexivity].
Defined.

(** ** Seeking while the duration is 0 *)

(** C4, as stated, fails: at 5 s with a duration of 0, [seekForward]
    moves the position to 0 instead of leaving it at 5. *)
Lemma seekForward_zero_duration_moves :
  playing_at 5 0 (stateOf (playerAt 5 0)) /\
  position (seekForward (stateOf (playerAt 5 0))) = Fin 0 /\
  ~ position (seekForward (stateOf (playerAt 5 0))) =n= Fin 5.
Proof.
  split; [apply (playing_at_stateOf 5 0) |].
  split; [reflexivity |].
  cbn. discriminate.
Qed.

(** C4, amended: with a duration of 0 a relative seek does not fail; the
    upper bound of the clamp is the duration itself, so [seekForward]
    puts the position at 0, and [seekBackward], which does not look at
    the duration, at [max (current - 10, 0)].  Either one leaves the
    position where it was exactly when [current] is 0. *)
Theorem seek_with_zero_duration (s : State) (cur : Q) :
  playing_at cur 0 s -> 0 <= cur ->
  position (seekForward s) =n= Fin 0 /\
  position (seekBackward s) =n= Fin (Qmax (cur - 10) 0) /\
  (position (seekForward s) =n= Fin cur <-> cur == 0) /\
  (position (seekBackward s) =n= Fin cur <-> cur == 0).
Proof.
  intros H Hc.
  destruct (seekForward_target _ _ _ H) as (f & Ef & Hf).
  destruct (seekBackward_target _ _ _ H) as (b & Eb & Hb).
  rewrite Ef, Eb. cbn [eqv].
  destruct (Q.min_spec (cur + 10) 0) as [[? E1] | [? E1]];
    destruct (Q.max_spec (cur - 10) 0) as [[? E2] | [? E2]];
    rewrite E1 in Hf; rewrite ?E2; rewrite E2 in Hb;
    repeat split; intros; lra.
Qed.

Lemma seek_with_zero_duration_witness :
  position (seekForward (stateOf (playerAt 5 0))) =n= Fin 0.
Proof.
  apply (@seek_with_zero_duration (stateOf (playerAt 5 0)) 5).
  - apply (playing_at_stateOf 5 0).
  - discriminate.
Defined.

(** ** Position on the seekbar *)

Lemma clamp_unit (q : Q) : clamp q 0 1 == Qmax 0 (Qmin 1 q).
Proof.
  unfold clamp.
  destruct (Qltb_spec q 0) as [H | H];
    [| destruct (Qltb_spec 1 q) as [H' | H']].
  - rewrite (Q.min_r 1 q) by lra. rewrite Q.max_l by lra. reflexivity.
  - rewrite (Q.min_l 1 q) by lra. rewrite Q.max_r by lra. reflexivity.
  - rewrite (Q.min_r 1 q) by lra. rewrite Q.max_r by lra. reflexivity.
Qed.

Lemma clamp_unit_range (q : Q) : 0 <= clamp q 0 1 /\ clamp q 0 1 <= 1.
Proof.
  unfold clamp.
  destruct (Qltb_spec q 0); [| destruct (Qltb_spec 1 q)]; lra.
Qed.

Lemma clamp_unit_mono (p q : Q) : p <= q -> clamp p 0 1 <= clamp q 0 1.
Proof.
  unfold clamp. intro H.
  destruct (Qltb_spec p 0); destruct (Qltb_spec q 0);
    try destruct (Qltb_spec 1 p); try destruct (Qltb_spec 1 q); lra.
Qed.

Ltac unfold_newProgress :=
  unfold newProgress; cbn [pageX trackWidth sub neg add div].

(** With a finite non-zero width the fraction is the clamped quotient. *)
Lemma newProgress_finite (x o w : Q) :
  ~ w == 0 ->
  exists r, newProgress (Fin x) (mkLayout (Fin w) (Fin o)) = Fin r /\
            r == clamp ((x - o) / w) 0 1.
Proof.
  intro Hw. unfold_newProgress.
  destruct (Qeq_bool_spec w 0) as [E | _]; [contradiction |].
  destruct (Math_min_Fin (inject_Z 1) ((x + - o) / w)) as (m & Em & Hm).
  unfold of_Z. rewrite Em.
  destruct (Math_max_Fin (inject_Z 0) m) as (r & Er & Hr).
  exists r. split; [exact Er |].
  rewrite Hr, Hm, clamp_unit. reflexivity.
Qed.

Lemma seekbarValue_handleSeekbarPress (m : Layout) (x : num) (s : State) :
  seekbarValue (handleSeekbarPress (Some m) x s) = newProgress x m.
Proof.
  unfold handleSeekbarPress. cbv zeta.
  cbn [player setSeekbarPosition setSeekbarValue].
  destruct (player s); [destruct (duration s >? 0%Z)%num |]; reflexivity.
Qed.

(** C5, as stated, fails: on a track of width 0 a press at abscissa 160
    is mapped to the fraction 1, which [handleSeekbarPress] stores; on a
    track of width -320 it is mapped to 0.  Nothing is reported. *)
Lemma newProgress_zero_width_returns :
  newProgress 160%Z (mkLayout 0%Z 0%Z) = Fin 1 /\
  between 0 1 (newProgress 160%Z (mkLayout 0%Z 0%Z)) /\
  seekbarValue
    (handleSeekbarPress (Some (mkLayout 0%Z 0%Z)) 160%Z
       (stateOf (playerAt 5 100))) = Fin 1 /\
  newProgress 160%Z (mkLayout (-320)%Z 0%Z) = Fin 0.
Proof.
  repeat split; try reflexivity; cbn; discriminate.
Qed.

(** C5, amended: the mapping of a press to a fraction never fails, also
    when the width of the track is not positive.  For a negative width
    it still returns the quotient clamped to [0, 1]; for a width of 0
    the division gives an infinity or NaN, and the result is 1 for a
    press right of the origin, 0 for a press left of it, and NaN for a
    press on it.  [handleSeekbarPress] stores that result. *)
Theorem newProgress_nonpositive_width (x o w : Q) :
  w <= 0 ->
  let m := mkLayout (Fin w) (Fin o) in
  (w < 0 -> newProgress (Fin x) m =n= Fin (clamp ((x - o) / w) 0 1)) /\
  (w == 0 -> o < x -> newProgress (Fin x) m = Fin 1) /\
  (w == 0 -> x < o -> newProgress (Fin x) m = Fin 0) /\
  (w == 0 -> x == o -> newProgress (Fin x) m = NaN) /\
  (forall s, seekbarValue (handleSeekbarPress (Some m) (Fin x) s)
             = newProgress (Fin x) m).
Proof.
  intros Hw m. repeat split.
  - intro H.
    destruct (@newProgress_finite x o w) as (r & E & Hr); [intro; lra |].
    subst m. rewrite E. exact Hr.
  - intros E H. subst m. unfold_newProgress.
    destruct (Qeq_bool_spec w 0) as [_ | N]; [| contradiction].
    assert (G : (x + - o ?= 0) = Gt) by (apply (proj1 (Qgt_alt _ _)); lra).
    rewrite G. reflexivity.
  - intros E H. subst m. unfold_newProgress.
    destruct (Qeq_bool_spec w 0) as [_ | N]; [| contradiction].
    assert (G : (x + - o ?= 0) = Lt) by (apply (proj1 (Qlt_alt _ _)); lra).
    rewrite G. reflexivity.
  - intros E H. subst m. unfold_newProgress.
    destruct (Qeq_bool_spec w 0) as [_ | N]; [| contradiction].
    assert (G : (x + - o ?= 0) = Eq) by (apply (proj1 (Qeq_alt _ _)); lra).
    rewrite G. reflexivity.
  - intro s. apply seekbarValue_handleSeekbarPress.
Qed.

Lemma newProgress_nonpositive_width_witness :
  newProgress (Fin 160) (mkLayout (Fin 0) (Fin 0)) = Fin 1.
Proof.
  apply (@newProgress_nonpositive_width 160 0 0);
    [discriminate | | ]; reflexivity.
Defined.

(** C6: for a track of positive width the fraction of a press is
    [clamp ((pressX - originX) / widthPx, 0, 1)]; it lies in [0, 1], it
    does not decrease when the press moves right, and a press at 160 on
    a track of width 320 starting at 0 gives one half.  The press
    handler and the two pan handlers store exactly that fraction. *)
Theorem newProgress_is_clamp (x x' o w : Q) :
  0 < w -> x <= x' ->
  let m := mkLayout (Fin w) (Fin o) in
  newProgress (Fin x) m =n= Fin (clamp ((x - o) / w) 0 1) /\
  between 0 1 (newProgress (Fin x) m) /\
  le (newProgress (Fin x) m) (newProgress (Fin x') m) /\
  newProgress 160%Z (mkLayout 320%Z 0%Z) =n= Fin (1 # 2) /\
  (forall s, seekbarValue (handleSeekbarPress (Some m) (Fin x) s)
             = newProgress (Fin x) m) /\
  (forall s, seekbarValue (onPanResponderGrant (Some m) (Fin x) s)
             = newProgress (Fin x) m) /\
  (forall s, seekbarValue (onPanResponderMove (Some m) (Fin x) s)
             = newProgress (Fin x) m).
Proof.
  intros Hw Hx m. subst m.
  destruct (@newProgress_finite x o w) as (r & E & Hr); [intro; lra |].
  destruct (@newProgress_finite x' o w) as (r' & E' & Hr'); [intro; lra |].
  rewrite E, E'. cbn [eqv between le].
  pose proof (clamp_unit_range ((x - o) / w)) as [R0 R1].
  assert (M : (x - o) / w <= (x' - o) / w).
  { unfold Qdiv. apply Qmult_le_compat_r; [lra |].
    apply Qinv_le_0_compat. lra. }
  apply clamp_unit_mono in M.
  repeat split; try lra; try reflexivity; intro s; rewrite <- E.
  - apply seekbarValue_handleSeekbarPress.
  - reflexivity.
  - reflexivity.
Qed.

Lemma newProgress_is_clamp_witness :
  newProgress (Fin 160) (mkLayout (Fin 320) (Fin 0))
  =n= Fin (clamp ((160 - 0) / 320) 0 1).
Proof.
  apply (@newProgress_is_clamp 160 200 0 320); reflexivity || discriminate.
Defined.

(** ** Halves of the video *)

Lemma half_width (w : Q) : (Fin w / 2%Z)%num = Fin (w / inject_Z 2).
Proof. reflexivity. Qed.

Lemma isLeftHalf_true (s : State) (x w : Q) :
  screenWidth s = Fin w ->
  Tap.isLeftHalf (Fin x) s = true <-> x < w / 2.
Proof.
  intro H. unfold Tap.isLeftHalf. rewrite H, half_width.
  cbn [lt]. apply Qltb_true.
Qed.

(** C7: a double tap is on the left half exactly when its abscissa is
    strictly less than half of the width of the video, and on the right
    half otherwise.  On the left [handleDoubleTap] seeks 10 seconds
    backward: the position, in the player and in the state, becomes
    [max (current - 10, 0)] and the seek indicator shows backward.  On
    the right it seeks 10 seconds forward, to
    [min (current + 10, duration)], and the indicator shows forward.
    One pixel left of the middle is left, one pixel right of it is
    right.  [handleVideoTap] hands every double tap to [handleDoubleTap]
    and records that half. *)
Theorem double_tap_half (s : State) (x w cur dur : Q) :
  screenWidth s = Fin w -> playing_at cur dur s ->
  (Tap.isLeftHalf (Fin x) s = true <-> x < w / 2) /\
  (x < w / 2 ->
   handleDoubleTap (Fin x) s
   = setShowSeekIndicator true
       (setSeekDirection (Some backward) (seekBackward s)) /\
   position (handleDoubleTap (Fin x) s) =n= Fin (Qmax (cur - 10) 0) /\
   currentTime (handleDoubleTap (Fin x) s) =n= Fin (Qmax (cur - 10) 0) /\
   seekDirection (handleDoubleTap (Fin x) s) = Some backward /\
   showSeekIndicator (handleDoubleTap (Fin x) s) = true) /\
  (~ x < w / 2 ->
   Tap.isLeftHalf (Fin x) s = false /\
   handleDoubleTap (Fin x) s
   = setShowSeekIndicator true
       (setSeekDirection (Some forward) (seekForward s)) /\
   position (handleDoubleTap (Fin x) s) =n= Fin (Qmin (cur + 10) dur) /\
   currentTime (handleDoubleTap (Fin x) s) =n= Fin (Qmin (cur + 10) dur) /\
   seekDirection (handleDoubleTap (Fin x) s) = Some forward /\
   showSeekIndicator (handleDoubleTap (Fin x) s) = true) /\
  (x == w / 2 - 1 -> Tap.isLeftHalf (Fin x) s = true) /\
  (x == w / 2 + 1 -> Tap.isLeftHalf (Fin x) s = false) /\
  (forall now wd,
     Tap.comp wd = s ->
     Tap.isDoubleTap now (lastTapRef s) = true ->
     Tap.emitted (Tap.handleVideoTap now (Fin x) wd)
     = (Tap.emitted wd ++ [Tap.Double (Tap.isLeftHalf (Fin x) s)])%list /\
     Tap.comp (Tap.handleVideoTap now (Fin x) wd)
     = set_lastTapRef None (handleDoubleTap (Fin x) s)).
Proof.
  intros H P. pose proof (@isLeftHalf_true s x w H) as L.
  assert (R : ~ x < w / 2 -> Tap.isLeftHalf (Fin x) s = false).
  { intro N. destruct (Tap.isLeftHalf (Fin x) s); trivial.
    exfalso. apply N, L. reflexivity. }
  destruct (seekForward_target _ _ _ P) as (f & Ef & Hf).
  destruct (seekBackward_target _ _ _ P) as (b & Eb & Hb).
  assert (Cf : currentTime (seekForward s) = position (seekForward s)).
  { destruct P as (p & Hp & _).
    unfold seekForward, position. rewrite Hp. reflexivity. }
  assert (Cb : currentTime (seekBackward s) = position (seekBackward s)).
  { destruct P as (p & Hp & _).
    unfold seekBackward, position. rewrite Hp. reflexivity. }
  split; [exact L |].
  split.
  { intro Hx. apply L in Hx.
    assert (E : handleDoubleTap (Fin x) s
                = setShowSeekIndicator true
                    (setSeekDirection (Some backward) (seekBackward s))).
    { unfold handleDoubleTap. unfold Tap.isLeftHalf in Hx. cbv zeta.
      now rewrite Hx. }
    rewrite E. split; [reflexivity |].
    unfold position. simpl_state. fold (position (seekBackward s)).
    rewrite Cb, Eb. repeat split; exact Hb. }
  split.
  { intro Hx. split; [now apply R |]. apply R in Hx.
    assert (E : handleDoubleTap (Fin x) s
                = setShowSeekIndicator true
                    (setSeekDirection (Some forward) (seekForward s))).
    { unfold handleDoubleTap. unfold Tap.isLeftHalf in Hx. cbv zeta.
      now rewrite Hx. }
    rewrite E. split; [reflexivity |].
    unfold position. simpl_state. fold (position (seekForward s)).
    rewrite Cf, Ef. repeat split; exact Hf. }
  split; [intro E; apply L; lra |].
  split; [intro E; apply R; lra |].
  intros now wd Hc Hd. unfold Tap.handleVideoTap. rewrite Hc, Hd.
  split; reflexivity.
Qed.

Lemma double_tap_half_witness :
  Tap.isLeftHalf (Fin 179) (stateOf (playerAt 5 100)) = true /\
  position (handleDoubleTap (Fin 179) (stateOf (playerAt 5 100)))
  =n= Fin (Qmax (5 - 10) 0) /\
  Tap.isLeftHalf (Fin 181) (stateOf (playerAt 5 100)) = false /\
  position (handleDoubleTap (Fin 181) (stateOf (playerAt 5 100)))
  =n= Fin (Qmin (5 + 10) 100).
Proof.
  destruct (@double_tap_half (stateOf (playerAt 5 100)) 179 360 5 100 eq_refl
              (playing_at_stateOf 5 100)) as (L & B & _).
  destruct (@double_tap_half (stateOf (playerAt 5 100)) 181 360 5 100 eq_refl
              (playing_at_stateOf 5 100)) as (_ & _ & F & _).
  destruct (B eq_refl) as (_ & PB & _).
  destruct F as (RF & _ & PF & _); [discriminate |].
  split; [apply L; reflexivity |]. split; [exact PB |].
  split; [exact RF | exact PF].
Defined.

(** ** Dragging the seekbar *)

Section Dragging.

Variable seekbarPadding : num.

Lemma pollTick_dragging (s : State) :
  isDragging s = true -> pollTick seekbarPadding s = s.
Proof.
  intro H. unfold pollTick. rewrite H. now destruct (player s).
Qed.

Lemma isDragging_move (r : option Layout) (x : num) (s : State) :
  isDragging (onPanResponderMove r x s) = isDragging s.
Proof. now destruct r. Qed.

Lemma isDragging_grant (r : option Layout) (x : num) (s : State) :
  isDragging (onPanResponderGrant r x s) = true.
Proof. now destruct r. Qed.

Lemma dragStep_dragging (s : State) (e : DragEvent) :
  isDragging s = true -> isDragging (dragStep seekbarPadding s e) = true.
Proof.
  intro H. destruct e as [r x |]; cbn [dragStep].
  - now rewrite isDragging_move.
  - now rewrite pollTick_dragging.
Qed.

Lemma drag_ignores_ticks (evs : list DragEvent) (s : State) :
  isDragging s = true ->
  fold_left (dragStep seekbarPadding) evs s
  = fold_left (dragStep seekbarPadding) (filter isMove evs) s /\
  isDragging (fold_left (dragStep seekbarPadding) evs s) = true.
Proof.
  revert s. induction evs as [| e evs IH]; intros s H; [now split |].
  destruct e as [r x |]; cbn [fold_left filter isMove dragStep].
  - apply IH. now rewrite isDragging_move.
  - rewrite (pollTick_dragging _ H). now apply IH.
Qed.

End Dragging.

(** C9: from the grant of a drag to its release [isDragging] is true,
    and a tick of the poll leaves the whole state as it is: the state
    reached through moves and ticks is the one reached through the moves
    alone, so the scrub position ([seekbarValue], [seekbarPosition]) and
    the displayed time are those of the drag.  The release clears the
    flag, and the next tick copies the time of the player again and,
    for a positive duration, puts the seekbar at time / duration. *)
Theorem poll_suppressed_while_dragging
    (seekbarPadding : num) (r : option Layout) (x : num) (s : State)
    (evs : list DragEvent) (c : Closure) :
  let s0 := onPanResponderGrant r x s in
  let s1 := fold_left (dragStep seekbarPadding) evs s0 in
  let s2 := onPanResponderRelease c s1 in
  isDragging s0 = true /\
  isDragging s1 = true /\
  s1 = fold_left (dragStep seekbarPadding) (filter isMove evs) s0 /\
  pollTick seekbarPadding s1 = s1 /\
  seekbarValue (pollTick seekbarPadding s1) = seekbarValue s1 /\
  seekbarPosition (pollTick seekbarPadding s1) = seekbarPosition s1 /\
  displayedTime (pollTick seekbarPadding s1) = displayedTime s1 /\
  isDragging s2 = false /\
  (forall p, player s2 = Some p ->
     let time := or_else (p_currentTime p) 0%Z in
     let dur := or_else (p_duration p) 0%Z in
     currentTime (pollTick seekbarPadding s2) = time /\
     ((dur >? 0%Z)%num = true ->
      seekbarValue (pollTick seekbarPadding s2) = (time / dur)%num /\
      seekbarPosition (pollTick seekbarPadding s2)
      = (time / dur * seekbarWidth seekbarPadding s2)%num)).
Proof.
  intros s0 s1 s2.
  assert (G : isDragging s0 = true) by apply isDragging_grant.
  destruct (drag_ignores_ticks seekbarPadding evs s0 G) as [F D].
  fold s1 in F, D.
  assert (P : pollTick seekbarPadding s1 = s1) by now apply pollTick_dragging.
  assert (R : isDragging s2 = false).
  { subst s2. unfold onPanResponderRelease.
    destruct (player s1); [destruct (c_duration c >? 0%Z)%num |]; reflexivity. }
  repeat split; trivial; try (rewrite P; reflexivity).
  - unfold pollTick. rewrite H, R. cbn [negb].
    destruct (or_else (p_duration p) 0%Z >? 0%Z)%num; reflexivity.
  - unfold pollTick. rewrite H, R. cbn [negb]. rewrite H0. reflexivity.
  - unfold pollTick. rewrite H, R. cbn [negb]. rewrite H0. reflexivity.
Qed.

(** ** The formatted time *)

Lemma Qfloor_div_60 (q : Q) :
  Qfloor (inject_Z (Qfloor q) / inject_Z 60) = Qfloor (q / 60).
Proof.
  destruct q as [a b]. cbn [Qfloor].
  unfold Qdiv, Qmult, Qinv, inject_Z, Qfloor. cbn [Qnum Qden].
  rewrite !Z.mul_1_r. rewrite Pos2Z.inj_mul.
  rewrite Z.div_div by lia. reflexivity.
Qed.

Lemma two_digits_below_60 :
  forallb (fun r => String.eqb (padStart 2 "0"%char (decimal r)) (two_digits r))
          (map Z.of_nat (seq 0 60)) = true.
Proof. vm_compute. reflexivity. Qed.

Lemma padStart_two_digits (r : Z) :
  (0 <= r < 60)%Z -> padStart 2 "0"%char (decimal r) = two_digits r.
Proof.
  intro H. apply String.eqb_eq.
  apply (proj1 (forallb_forall _ _) two_digits_below_60).
  rewrite <- (Z2Nat.id r) by lia.
  apply in_map, in_seq. lia.
Qed.

(** C10: [formatTime] returns a string for every input.  For a number
    of seconds of at least 1 it is the whole minutes, a colon, and the
    remaining whole seconds on two digits (65 gives 1:05); for 0, NaN,
    [null] and [undefined] it is 0:00, so that 0 seconds reads like a
    missing value.  The seconds are below 2^53, where a double holds
    every whole number and prints all of its digits. *)
Theorem formatTime_minutes_seconds (q : Q) :
  1 <= q -> q < inject_Z (2 ^ 53) ->
  formatTime (JNum (Fin q))
  = (decimal (Qfloor (q / 60)) ++ ":"
       ++ two_digits (Qfloor q - 60 * Qfloor (q / 60)))%string /\
  formatTime (JNum 65%Z) = "1:05"%string /\
  formatTime (JNum 0%Z) = "0:00"%string /\
  formatTime (JNum NaN) = "0:00"%string /\
  formatTime JNull = "0:00"%string /\
  formatTime JUndefined = "0:00"%string.
Proof.
  intros H _. split; [| repeat split; reflexivity].
  unfold formatTime. cbn [falsy global_isNaN truthy isNaN toNumber].
  destruct (Qeq_bool_spec q 0) as [E | _]; [lra |].
  cbn [negb orb Math_floor of_inum of_Z div rem Number_toString].
  change (Qeq_bool (inject_Z 60) 0) with false. cbv iota.
  cbn [Math_floor Number_toString]. change (60 =? 0)%Z with false. cbv iota.
  rewrite Qfloor_div_60.
  assert (N : (1 <= Qfloor q)%Z) by (apply (Qfloor_resp_le 1 q H)).
  assert (D : Qfloor (q / 60) = (Qfloor q / 60)%Z).
  { rewrite <- Qfloor_div_60. destruct q as [a b]. cbn [Qfloor].
    unfold Qdiv, Qmult, Qinv, inject_Z, Qfloor. cbn [Qnum Qden].
    now rewrite Z.mul_1_r. }
  rewrite Z.rem_mod_nonneg by lia. cbn [Number_toString].
  rewrite padStart_two_digits by (apply Z.mod_pos_bound; lia).
  rewrite D, <- Z.mod_eq by lia. reflexivity.
Qed.

Lemma formatTime_minutes_seconds_witness :
  formatTime (JNum (Fin (3599 # 2)))
  = (decimal (Qfloor ((3599 # 2) / 60)) ++ ":"
       ++ two_digits
            (Qfloor (3599 # 2) - 60 * Qfloor ((3599 # 2) / 60)))%string.
Proof.
  apply (formatTime_minutes_seconds (3599 # 2)); [discriminate | reflexivity].
Defined.

(** ** Single and double taps *)

Module TapFacts.

Import Tap.

Lemma tapsOf_app (l l' : list Classification) :
  tapsOf (l ++ l') = (tapsOf l + tapsOf l')%nat.
Proof.
  induction l as [| [| h] l IH]; cbn [app tapsOf]; [reflexivity | |];
    rewrite IH; reflexivity.
Qed.

Lemma isDoubleTap_within (now last : Z) :
  last <> 0%Z -> (now - last < DOUBLE_TAP_DELAY)%Z ->
  isDoubleTap now (Some last) = true.
Proof.
  intros H0 H. unfold isDoubleTap.
  destruct (Z.eqb_spec last 0); [contradiction |].
  destruct (Z.ltb_spec (now - last) DOUBLE_TAP_DELAY); [reflexivity | lia].
Qed.

Lemma isLastTap_same (now : Z) : isLastTap now (Some now) = true.
Proof. apply Z.eqb_refl. Qed.

Lemma onTimeout_pending (s : State) (q : list Timer)
    (l : list Classification) (t : Z) :
  lastTapRef s = Some t ->
  onTimeout t (mkWorld s q l)
  = mkWorld (set_lastTapRef None (handleSingleTap s)) q (l ++ [Single]).
Proof.
  intro H. unfold onTimeout. cbn [comp timers emitted].
  rewrite H, isLastTap_same. reflexivity.
Qed.

Lemma onTimeout_stale (w : World) (t : Z) :
  isLastTap t (lastTapRef (comp w)) = false -> onTimeout t w = w.
Proof. intro H. unfold onTimeout. now rewrite H. Qed.

Lemma handleVideoTap_fresh (s : State) (q : list Timer)
    (l : list Classification) (now : Z) (x : num) :
  lastTapRef s = None ->
  handleVideoTap now x (mkWorld s q l)
  = mkWorld (set_lastTapRef (Some now) s)
            (setTimeout (mkTimer (now + DOUBLE_TAP_DELAY) now) q) l.
Proof.
  intro H. unfold handleVideoTap. cbn [comp timers emitted].
  rewrite H. reflexivity.
Qed.

Lemma handleVideoTap_double (s : State) (q : list Timer)
    (l : list Classification) (now : Z) (x : num) :
  isDoubleTap now (lastTapRef s) = true ->
  handleVideoTap now x (mkWorld s q l)
  = mkWorld (set_lastTapRef None (handleDoubleTap x s)) q
            (l ++ [Double (isLeftHalf x s)]).
Proof.
  intro H. unfold handleVideoTap. cbn [comp timers emitted].
  rewrite H. reflexivity.
Qed.

(** The first tap of a fresh detector waits for its timer. *)
Lemma first_tap (s : State) (t : Z) (x : num) :
  lastTapRef s = None ->
  tap (initialWorld s) (mkTap t x)
  = mkWorld (set_lastTapRef (Some t) s) [mkTimer (t + DOUBLE_TAP_DELAY) t] [].
Proof.
  intro H. unfold tap, advance, initialWorld.
  cbn [timers fire comp emitted timestampMs xPosition].
  now rewrite handleVideoTap_fresh.
Qed.

End TapFacts.

(** ** Taps and timers in any order *)

Module ScheduleFacts.

Import Tap Schedule.

Lemma step_expired_idle (l : Loop) (k : nat) :
  timers (world l) = [] -> step l (Expired k) = None.
Proof. intro H. cbn [step]. rewrite H. now destruct k. Qed.

(** A schedule with no press left, on a loop with no timer pending, is
    over. *)
Lemma exec_idle (sch : list Event) (l l' : Loop) :
  presses sch = [] -> timers (world l) = [] ->
  exec sch l = Some l' -> sch = [] /\ l' = l.
Proof.
  intros P T E. destruct sch as [| [now x | k] sch].
  - injection E as <-. now split.
  - discriminate P.
  - cbn [exec] in E. now rewrite (step_expired_idle l k T) in E.
Qed.

Lemma step_tapped_fresh (s : State) (q : list Timer)
    (em : list Classification) (c : Z) (r : list Resolution) (now : Z)
    (x : num) :
  lastTapRef s = None ->
  step (mkLoop (mkWorld s q em) c r) (Tapped now x)
  = if (c <=? now)%Z then
      Some (mkLoop
              (mkWorld (set_lastTapRef (Some now) s)
                 (setTimeout (mkTimer (now + DOUBLE_TAP_DELAY) now) q) em)
              now r)
    else None.
Proof.
  intro H. cbn [step world clock resolved comp].
  rewrite (TapFacts.handleVideoTap_fresh s q em now x H), H.
  cbn [resolveTap]. now rewrite app_nil_r.
Qed.

Lemma step_tapped_pending (s : State) (q : list Timer)
    (em : list Classification) (c : Z) (r : list Resolution) (now last : Z)
    (x : num) :
  lastTapRef s = Some last ->
  step (mkLoop (mkWorld s q em) c r) (Tapped now x)
  = if (c <=? now)%Z then
      if isDoubleTap now (Some last) then
        Some (mkLoop
                (mkWorld (set_lastTapRef None (handleDoubleTap x s)) q
                   (em ++ [Double (isLeftHalf x s)]))
                now (r ++ [DoubleOf last now]))
      else
        Some (mkLoop
                (mkWorld (set_lastTapRef (Some now) s)
                   (setTimeout (mkTimer (now + DOUBLE_TAP_DELAY) now) q) em)
                now r)
    else None.
Proof.
  intro H. cbn [step world clock resolved comp]. rewrite H.
  unfold handleVideoTap, resolveTap. cbn [comp timers emitted]. rewrite H.
  destruct (isDoubleTap now (Some last)); [reflexivity |].
  now rewrite app_nil_r.
Qed.

Lemma step_expired (s : State) (q : list Timer) (em : list Classification)
    (c : Z) (r : list Resolution) (k : nat) (tm : Timer) :
  nth_error q k = Some tm ->
  step (mkLoop (mkWorld s q em) c r) (Expired k)
  = Some (if isLastTap (now_of tm) (lastTapRef s) then
            mkLoop
              (mkWorld (set_lastTapRef None (handleSingleTap s))
                 (remove_nth k q) (em ++ [Single]))
              (Z.max c (due tm)) (r ++ [SingleOf (now_of tm)])
          else
            mkLoop (mkWorld s (remove_nth k q) em) (Z.max c (due tm)) r).
Proof.
  intro H. cbn [step world clock resolved comp timers emitted]. rewrite H.
  unfold onTimeout, resolveTimeout. cbn [comp timers emitted].
  destruct (isLastTap (now_of tm) (lastTapRef s)); [reflexivity |].
  now rewrite app_nil_r.
Qed.

Lemma isDoubleTap_late (now last : Z) :
  (DOUBLE_TAP_DELAY <= now - last)%Z -> isDoubleTap now (Some last) = false.
Proof.
  intro H. unfold isDoubleTap.
  destruct (Z.ltb_spec (now - last) DOUBLE_TAP_DELAY); [lia |].
  apply andb_false_r.
Qed.

Lemma isLastTap_differs (now last : Z) :
  last <> now -> isLastTap now (Some last) = false.
Proof. intro H. cbn. now apply Z.eqb_neq. Qed.

(** The schedules of two presses at [t] and [t + d], from a detector
    with no tap pending, that leave no timer behind. *)
Lemma pair_schedules (s : State) (t d c : Z) (x1 x2 : num)
    (sch : list Event) (l : Loop) :
  lastTapRef s = None -> t <> 0%Z ->
  exec sch (start s c) = Some l ->
  presses sch = [mkTap t x1; mkTap (t + d) x2] ->
  timers (world l) = [] ->
  ((d < DOUBLE_TAP_DELAY)%Z /\
   sch = [Tapped t x1; Tapped (t + d) x2; Expired 0] /\
   emitted (world l) = [Double (isLeftHalf x2 s)] /\
   resolved l = [DoubleOf t (t + d)]) \/
  ((DOUBLE_TAP_DELAY <= d)%Z /\
   sch = [Tapped t x1; Expired 0; Tapped (t + d) x2; Expired 0] /\
   emitted (world l) = [Single; Single] /\
   resolved l = [SingleOf t; SingleOf (t + d)]) \/
  ((DOUBLE_TAP_DELAY <= d)%Z /\
   (sch = [Tapped t x1; Tapped (t + d) x2; Expired 0; Expired 0] \/
    sch = [Tapped t x1; Tapped (t + d) x2; Expired 1; Expired 0]) /\
   emitted (world l) = [Single] /\
   resolved l = [SingleOf (t + d)]).
Proof.
  intros H Ht E P T.
  (* the first press *)
  destruct sch as [| [now x | k] sch]; [discriminate P | |].
  2: { cbn [exec] in E. unfold start in E.
       now rewrite step_expired_idle in E. }
  cbn [presses] in P. injection P as -> -> P.
  cbn [exec] in E. unfold start, initialWorld in E.
  rewrite (step_tapped_fresh s [] [] c [] t x1 H) in E.
  destruct (c <=? t)%Z; [| discriminate E].
  cbn [setTimeout] in E.
  destruct sch as [| [now x | k] sch]; [discriminate P | |].
  - (* the second press comes before the callback *)
    cbn [presses] in P. injection P as -> -> P.
    cbn [exec] in E.
    rewrite (step_tapped_pending (set_lastTapRef (Some t) s) _ _ _ _
               (t + d) t x2 eq_refl) in E.
    destruct (Z.leb_spec t (t + d)) as [D0 | D0]; [| discriminate E].
    destruct (Z.lt_ge_cases d DOUBLE_TAP_DELAY) as [D | D].
    + rewrite TapFacts.isDoubleTap_within in E by (trivial; lia).
      destruct sch as [| [now x | k] sch];
        [injection E as <-; discriminate T | discriminate P |].
      cbn [presses] in P. cbn [exec] in E.
      destruct k as [| k];
        [| cbn [step world timers nth_error] in E; destruct k; discriminate E].
      erewrite step_expired in E by reflexivity.
      cbn [now_of due lastTapRef set_lastTapRef isLastTap remove_nth] in E.
      apply exec_idle in E; [| exact P | reflexivity].
      destruct E as [-> ->]. left. now repeat split.
    + rewrite isDoubleTap_late in E by lia.
      cbn [setTimeout due] in E.
      destruct (Z.leb_spec (t + DOUBLE_TAP_DELAY) (t + d + DOUBLE_TAP_DELAY));
        [| lia].
      right. right. split; [exact D |].
      destruct sch as [| [now x | k] sch];
        [injection E as <-; discriminate T | discriminate P |].
      cbn [presses] in P. cbn [exec] in E.
      destruct k as [| [| k]];
        [| | cbn [step world timers nth_error] in E; destruct k;
             discriminate E].
      * (* the callback of the first tap, then that of the second *)
        erewrite step_expired in E by reflexivity.
        cbn [now_of due lastTapRef set_lastTapRef remove_nth] in E.
        rewrite isLastTap_differs in E by (unfold DOUBLE_TAP_DELAY in D; lia).
        destruct sch as [| [now x | k] sch];
          [injection E as <-; discriminate T | discriminate P |].
        cbn [presses] in P. cbn [exec] in E.
        destruct k as [| k];
          [| cbn [step world timers nth_error] in E; destruct k;
             discriminate E].
        erewrite step_expired in E by reflexivity.
        cbn [now_of due lastTapRef set_lastTapRef remove_nth] in E.
        rewrite TapFacts.isLastTap_same in E.
        apply exec_idle in E; [| exact P | reflexivity].
        destruct E as [-> ->]. split; [now left | now split].
      * (* the callback of the second tap, then that of the first *)
        erewrite step_expired in E by reflexivity.
        cbn [now_of due lastTapRef set_lastTapRef remove_nth] in E.
        rewrite TapFacts.isLastTap_same in E.
        destruct sch as [| [now x | k] sch];
          [injection E as <-; discriminate T | discriminate P |].
        cbn [presses] in P. cbn [exec] in E.
        destruct k as [| k];
          [| cbn [step world timers nth_error] in E; destruct k;
             discriminate E].
        erewrite step_expired in E by reflexivity.
        cbn [now_of due lastTapRef set_lastTapRef remove_nth isLastTap] in E.
        apply exec_idle in E; [| exact P | reflexivity].
        destruct E as [-> ->]. split; [now right | now split].
  - (* the callback of the first tap comes before the second press *)
    cbn [presses] in P. cbn [exec] in E.
    destruct k as [| k];
      [| cbn [step world timers nth_error] in E; destruct k; discriminate E].
    erewrite step_expired in E by reflexivity.
    cbn [now_of due lastTapRef set_lastTapRef remove_nth] in E.
    rewrite TapFacts.isLastTap_same in E.
    destruct sch as [| [now x | k] sch]; [discriminate P | |].
    2: { cbn [exec] in E. now rewrite step_expired_idle in E. }
    cbn [presses] in P. injection P as -> -> P. cbn [exec] in E.
    rewrite step_tapped_fresh in E by reflexivity.
    destruct (Z.leb_spec (Z.max t (t + DOUBLE_TAP_DELAY)) (t + d)) as [D | D];
      [| discriminate E].
    cbn [setTimeout] in E.
    destruct sch as [| [now x | k] sch];
      [injection E as <-; discriminate T | discriminate P |].
    cbn [presses] in P. cbn [exec] in E.
    destruct k as [| k];
      [| cbn [step world timers nth_error] in E; destruct k; discriminate E].
    erewrite step_expired in E by reflexivity.
    cbn [now_of due lastTapRef set_lastTapRef remove_nth] in E.
    rewrite TapFacts.isLastTap_same in E.
    apply exec_idle in E; [| exact P | reflexivity].
    destruct E as [-> ->]. right. left.
    split; [lia |]. now repeat split.
Qed.

(** The two presses with every callback on time. *)
Lemma on_time_schedule (s : State) (t d : Z) (x1 x2 : num) :
  lastTapRef s = None -> (DOUBLE_TAP_DELAY <= d)%Z ->
  option_map (fun l => (emitted (world l), resolved l, timers (world l)))
    (exec [Tapped t x1; Expired 0; Tapped (t + d) x2; Expired 0] (start s t))
  = Some ([Single; Single], [SingleOf t; SingleOf (t + d)], []).
Proof.
  intros H D. cbn [exec]. unfold start, initialWorld.
  rewrite (step_tapped_fresh s [] [] t [] t x1 H), Z.leb_refl.
  cbn [setTimeout]. erewrite step_expired by reflexivity.
  cbn [now_of due lastTapRef set_lastTapRef remove_nth].
  rewrite TapFacts.isLastTap_same.
  rewrite step_tapped_fresh by reflexivity.
  destruct (Z.leb_spec (Z.max t (t + DOUBLE_TAP_DELAY)) (t + d));
    [| unfold DOUBLE_TAP_DELAY in *; lia].
  cbn [setTimeout]. erewrite step_expired by reflexivity.
  cbn [now_of due lastTapRef set_lastTapRef remove_nth].
  rewrite TapFacts.isLastTap_same. reflexivity.
Qed.

(** The two presses with the callback of the first one late. *)
Lemma late_schedule (s : State) (t d : Z) (x1 x2 : num) :
  lastTapRef s = None -> (DOUBLE_TAP_DELAY <= d)%Z ->
  option_map (fun l => (emitted (world l), resolved l, timers (world l)))
    (exec [Tapped t x1; Tapped (t + d) x2; Expired 0; Expired 0] (start s t))
  = Some ([Single], [SingleOf (t + d)], []).
Proof.
  intros H D. cbn [exec]. unfold start, initialWorld.
  rewrite (step_tapped_fresh s [] [] t [] t x1 H), Z.leb_refl.
  cbn [setTimeout].
  rewrite (step_tapped_pending (set_lastTapRef (Some t) s) _ _ _ _
             (t + d) t x2 eq_refl).
  destruct (Z.leb_spec t (t + d));
    [| unfold DOUBLE_TAP_DELAY in D; lia].
  rewrite isDoubleTap_late by lia. cbn [setTimeout due].
  destruct (Z.leb_spec (t + DOUBLE_TAP_DELAY) (t + d + DOUBLE_TAP_DELAY));
    [| lia].
  erewrite step_expired by reflexivity.
  cbn [now_of due lastTapRef set_lastTapRef remove_nth].
  rewrite isLastTap_differs by (unfold DOUBLE_TAP_DELAY in D; lia).
  erewrite step_expired by reflexivity.
  cbn [now_of due lastTapRef set_lastTapRef remove_nth].
  rewrite TapFacts.isLastTap_same. reflexivity.
Qed.

End ScheduleFacts.

(** C2, on the event loop as it is.  From a detector with no tap
    pending, take any schedule of two presses at [t] and [t + d] and of
    the timer callbacks, run to the end.  When [d] is less than
    [DOUBLE_TAP_DELAY] (300 ms) the second press is handled before the
    timer of the first can expire, and the pair is resolved as one
    double tap: so for [d = 299].  When [d] is 300 ms or more, the two
    taps are resolved as two single taps if the callback of the first
    tap runs before the second press is handled, as it does on time;
    but [setTimeout] does not promise that, and if the callback is late
    the second press finds the first timestamp still in [lastTapRef],
    fails the test of the window, overwrites the ref, and the first tap
    is never resolved: one single tap for the two, so for [d = 301]
    too.  The first timestamp is a reading of [Date.now ()], not 0. *)
Theorem tap_pair_under_any_schedule (s : State) (t d c : Z) (x1 x2 : num)
    (sch : list Schedule.Event) (l : Schedule.Loop) :
  lastTapRef s = None -> t <> 0%Z ->
  Schedule.exec sch (Schedule.start s c) = Some l ->
  Schedule.presses sch = [Tap.mkTap t x1; Tap.mkTap (t + d) x2] ->
  Tap.timers (Schedule.world l) = [] ->
  let on_time := [Schedule.Tapped t x1; Schedule.Expired 0;
                  Schedule.Tapped (t + d) x2; Schedule.Expired 0] in
  let late := [Schedule.Tapped t x1; Schedule.Tapped (t + d) x2;
               Schedule.Expired 0; Schedule.Expired 0] in
  let late' := [Schedule.Tapped t x1; Schedule.Tapped (t + d) x2;
                Schedule.Expired 1; Schedule.Expired 0] in
  let outcome := fun l' => (Tap.emitted (Schedule.world l'),
                            Schedule.resolved l',
                            Tap.timers (Schedule.world l')) in
  ((d < DOUBLE_TAP_DELAY)%Z ->
   Tap.emitted (Schedule.world l) = [Tap.Double (Tap.isLeftHalf x2 s)] /\
   Schedule.resolved l = [Schedule.DoubleOf t (t + d)]) /\
  ((DOUBLE_TAP_DELAY <= d)%Z ->
   (sch = on_time /\
    Tap.emitted (Schedule.world l) = [Tap.Single; Tap.Single] /\
    Schedule.resolved l = [Schedule.SingleOf t; Schedule.SingleOf (t + d)]) \/
   ((sch = late \/ sch = late') /\
    Tap.emitted (Schedule.world l) = [Tap.Single] /\
    Schedule.resolved l = [Schedule.SingleOf (t + d)])) /\
  ((DOUBLE_TAP_DELAY <= d)%Z ->
   option_map outcome (Schedule.exec on_time (Schedule.start s t))
   = Some ([Tap.Single; Tap.Single],
           [Schedule.SingleOf t; Schedule.SingleOf (t + d)], []) /\
   option_map outcome (Schedule.exec late (Schedule.start s t))
   = Some ([Tap.Single], [Schedule.SingleOf (t + d)], [])).
Proof.
  intros H Ht E P T on_time late late' outcome.
  pose proof (ScheduleFacts.pair_schedules s t d c x1 x2 sch l H Ht E P T)
    as [(D & _ & Em & R) | [(D & S & Em & R) | (D & S & Em & R)]].
  - split; [now split |]. split; intro D'; lia.
  - split; [intro D'; lia |]. split.
    + intros _. left. now repeat split.
    + intros _. split.
      * now apply ScheduleFacts.on_time_schedule.
      * now apply ScheduleFacts.late_schedule.
  - split; [intro D'; lia |]. split.
    + intros _. right. now repeat split.
    + intros _. split.
      * now apply ScheduleFacts.on_time_schedule.
      * now apply ScheduleFacts.late_schedule.
Qed.

Lemma tap_pair_under_any_schedule_witness :
  option_map (fun l => Tap.emitted (Schedule.world l))
    (Schedule.exec
       [Schedule.Tapped 1000 100%Z; Schedule.Tapped (1000 + 301) 100%Z;
        Schedule.Expired 0; Schedule.Expired 0]
       (Schedule.start (stateOf (playerAt 5 100)) 1000))
  = Some [Tap.Single].
Proof.
  destruct (Schedule.exec
              [Schedule.Tapped 1000 100%Z; Schedule.Tapped (1000 + 301) 100%Z;
               Schedule.Expired 0; Schedule.Expired 0]
              (Schedule.start (stateOf (playerAt 5 100)) 1000))
    as [l |] eqn:E; [| discriminate E].
  assert (T : Tap.timers (Schedule.world l) = [])
    by (injection E as <-; reflexivity).
  destruct (tap_pair_under_any_schedule (stateOf (playerAt 5 100))
              1000 301 1000 100%Z 100%Z _ l eq_refl
              ltac:(discriminate) E eq_refl T) as (_ & L & _).
  destruct L as [(S & _) | (_ & Em & _)].
  - unfold DOUBLE_TAP_DELAY. lia.
  - discriminate S.
  - cbn [option_map]. now rewrite Em.
Defined.

(** ** Every tap is resolved once *)

Module TapInvariant.

Import Tap TapFacts.

(** Running the callback of the first timer of the queue. *)
Lemma accounted_onTimeout (n : nat) (tm : Timer) (q : list Timer) (w : World) :
  accounted n (tm :: q) w -> accounted n q (onTimeout (now_of tm) w).
Proof.
  intros [C P]. unfold onTimeout.
  destruct (lastTapRef (comp w)) as [t0 |] eqn:E; cbn [isLastTap].
  - destruct (Z.eqb_spec t0 (now_of tm)) as [Heq | Hne].
    + split.
      * cbn [emitted comp]. rewrite tapsOf_app. unfold pendingTaps in *.
        rewrite E in C. cbn [lastTapRef set_lastTapRef tapsOf] in *. lia.
      * cbn [comp lastTapRef set_lastTapRef]. discriminate.
    + split; [exact C |]. intros t1 E1. rewrite E in E1.
      injection E1 as <-. destruct (P t0 eq_refl) as [N [I | I]].
      * exfalso. apply Hne. rewrite I. reflexivity.
      * now split.
  - split; [exact C |]. intros t1 E1. rewrite E in E1. discriminate.
Qed.

Lemma fire_accounted (t : Z) (n : nat) (q : list Timer) (w : World) :
  accounted n q w -> ordered q ->
  accounted n (timers (fire t q w)) (fire t q w) /\
  ordered (timers (fire t q w)) /\
  Forall (fun tm => (t < due tm)%Z) (timers (fire t q w)).
Proof.
  revert w. induction q as [| tm q IH]; intros w A O; cbn [fire].
  - split; [exact A | split; constructor].
  - destruct (Z.leb_spec (due tm) t) as [L | L].
    + apply IH; [now apply accounted_onTimeout | now inversion O].
    + cbn [timers]. split; [exact A | split; [exact O |]].
      inversion O as [| ? ? O' F]; subst. constructor; [exact L |].
      eapply Forall_impl; [| exact F]. cbn. intros a Ha. lia.
Qed.

Lemma settle_accounted (n : nat) (q : list Timer) (w : World) :
  accounted n q w ->
  accounted n [] (settle q w) /\ timers (settle q w) = [].
Proof.
  revert w. induction q as [| tm q IH]; intros w A; cbn [settle].
  - split; [exact A | reflexivity].
  - apply IH. now apply accounted_onTimeout.
Qed.

Lemma In_setTimeout (tm : Timer) (q : list Timer) (x : Timer) :
  In x (setTimeout tm q) <-> x = tm \/ In x q.
Proof.
  induction q as [| y q IH]; cbn [setTimeout In].
  - intuition congruence.
  - destruct (due y <=? due tm)%Z; cbn [In]; [rewrite IH |];
      intuition congruence.
Qed.

Lemma setTimeout_ordered (tm : Timer) (q : list Timer) :
  ordered q -> ordered (setTimeout tm q).
Proof.
  unfold ordered. induction q as [| y q IH]; intro O; cbn [setTimeout].
  - repeat constructor.
  - inversion O as [| ? ? O' F]; subst.
    destruct (Z.leb_spec (due y) (due tm)) as [L | L].
    + constructor; [now apply IH |].
      apply Forall_forall. intros x Hx. apply In_setTimeout in Hx.
      destruct Hx as [-> | Hx]; [exact L |].
      rewrite Forall_forall in F. now apply F.
    + constructor; [exact O |]. constructor; [lia |].
      eapply Forall_impl; [| exact F]. cbn. intros a Ha. lia.
Qed.

(** A tap on a world in which every expired timer has run. *)
Lemma handleVideoTap_accounted (n : nat) (t : Z) (x : num) (w : World) :
  t <> 0%Z ->
  accounted n (timers w) w -> ordered (timers w) ->
  Forall (fun tm => (t < due tm)%Z) (timers w) ->
  accounted (S n) (timers (handleVideoTap t x w)) (handleVideoTap t x w) /\
  ordered (timers (handleVideoTap t x w)).
Proof.
  intros Ht [C P] O F. destruct w as [s q l]. cbn [comp timers emitted] in *.
  destruct (lastTapRef s) as [t0 |] eqn:E.
  - destruct (P t0 eq_refl) as [N I].
    rewrite Forall_forall in F. apply F in I. cbn [due] in I.
    rewrite handleVideoTap_double
      by (rewrite E; apply isDoubleTap_within; [exact N | lia]).
    cbn [timers comp emitted]. split; [split | exact O].
    + cbn [emitted comp]. rewrite tapsOf_app. unfold pendingTaps in *.
      rewrite E in C. cbn [lastTapRef set_lastTapRef tapsOf] in *. lia.
    + cbn [comp lastTapRef set_lastTapRef]. intros t1 E1. discriminate.
  - rewrite handleVideoTap_fresh by exact E.
    cbn [timers comp emitted]. split; [split |].
    + cbn [emitted comp]. unfold pendingTaps in *. rewrite E in C.
      cbn [lastTapRef set_lastTapRef] in *. lia.
    + cbn [comp lastTapRef set_lastTapRef]. intros t1 E1. injection E1 as <-.
      split; [exact Ht |]. apply In_setTimeout. now left.
    + now apply setTimeout_ordered.
Qed.

Lemma tap_accounted (n : nat) (e : TapEvent) (w : World) :
  timestampMs e <> 0%Z ->
  accounted n (timers w) w -> ordered (timers w) ->
  accounted (S n) (timers (tap w e)) (tap w e) /\ ordered (timers (tap w e)).
Proof.
  intros Ht A O. unfold tap, advance.
  destruct (fire_accounted (timestampMs e) n (timers w) w A O)
    as (A' & O' & F').
  now apply handleVideoTap_accounted.
Qed.

Lemma taps_accounted (taps : list TapEvent) (n : nat) (w : World) :
  Forall (fun e => timestampMs e <> 0%Z) taps ->
  accounted n (timers w) w -> ordered (timers w) ->
  accounted (n + List.length taps) (timers (fold_left tap taps w))
            (fold_left tap taps w).
Proof.
  revert n w. induction taps as [| e taps IH]; intros n w F A O;
    cbn [fold_left List.length].
  - now rewrite Nat.add_0_r.
  - inversion F as [| ? ? He F']; subst.
    destruct (tap_accounted n e w He A O) as [A' O'].
    rewrite <- Nat.add_succ_comm. now apply IH.
Qed.

End TapInvariant.

Module ResolvedFacts.

Import Tap Schedule.

Lemma stamps_app (a b : list Resolution) :
  stamps (a ++ b) = (stamps a ++ stamps b)%list.
Proof.
  induction a as [| [t | t t'] a IH]; cbn [app stamps]; [reflexivity | |];
    now rewrite IH.
Qed.

Lemma NoDup_snoc (l : list Z) (a : Z) :
  NoDup l -> ~ In a l -> NoDup (l ++ [a]).
Proof.
  intros N H. induction l as [| x l IH]; cbn [app].
  - repeat constructor. intros [].
  - inversion N as [| ? ? Hx N']; subst. constructor.
    + intro I. apply in_app_or in I. destruct I as [I | [-> | []]].
      * now apply Hx.
      * apply H. now left.
    + apply IH; trivial. intro I. apply H. now right.
Qed.

Lemma In_stamps_single (r : list Resolution) (a : Z) :
  In (SingleOf a) r -> In a (stamps r).
Proof.
  induction r as [| [t | t t'] r IH]; cbn [In stamps]; [tauto | |].
  - intros [[= ->] | H]; [now left | right; now apply IH].
  - intros [[=] | H]. right. right. now apply IH.
Qed.

Lemma In_stamps_double (r : list Resolution) (a b : Z) :
  In (DoubleOf a b) r -> In a (stamps r) /\ In b (stamps r).
Proof.
  induction r as [| [t | t t'] r IH]; cbn [In stamps]; [tauto | |].
  - intros [[=] | H]. destruct (IH H). split; now right.
  - intros [[= -> ->] | H]; [split; [now left | right; now left] |].
    destruct (IH H). split; right; now right.
Qed.

(** A tap consumed by a double tap is not also resolved as a single tap. *)
Lemma double_excludes_single (r : list Resolution) (a b : Z) :
  NoDup (stamps r) -> In (DoubleOf a b) r ->
  ~ In (SingleOf a) r /\ ~ In (SingleOf b) r.
Proof.
  induction r as [| [t | t t'] r IH]; cbn [In stamps]; [tauto | |];
    intros N [E | H].
  - discriminate E.
  - inversion N as [| ? ? Ht N']; subst.
    destruct (IH N' H) as [A B]. destruct (In_stamps_double r a b H) as [Ia Ib].
    split; intros [[= ->] | S]; auto.
  - injection E as -> ->.
    inversion N as [| ? ? Ha N']; subst.
    inversion N' as [| ? ? Hb N'']; subst.
    split; intros [[=] | S]; apply In_stamps_single in S.
    + apply Ha. now right.
    + now apply Hb.
  - inversion N as [| ? ? Ht N']; subst.
    inversion N' as [| ? ? Ht' N'']; subst.
    destruct (IH N'' H) as [A B].
    split; intros [[=] | S]; auto.
Qed.

Lemma resolved_once_step (seen : list Z) (l l' : Loop) (e : Event) :
  resolved_once seen l -> step l e = Some l' ->
  match e with
  | Tapped now _ => ~ In now seen -> resolved_once (seen ++ [now]) l'
  | Expired _ => resolved_once seen l'
  end.
Proof.
  intros (N & I & P & M) E. destruct l as [[s q em] c r].
  cbn [world comp emitted resolved] in *.
  destruct e as [now x | k].
  - intro Hn.
    assert (Hr : ~ In now (stamps r)) by (intro A; apply Hn, I, A).
    destruct (lastTapRef s) as [last |] eqn:L.
    + rewrite (ScheduleFacts.step_tapped_pending s q em c r now last x L) in E.
      destruct (c <=? now)%Z; [| discriminate E].
      destruct (P last eq_refl) as [Is Ir].
      destruct (isDoubleTap now (Some last)); injection E as <-;
        unfold resolved_once; cbn [world comp emitted resolved
                                   lastTapRef set_lastTapRef].
      * rewrite stamps_app, !map_app, M. cbn [stamps map isSingleOf isSingle].
        repeat split; trivial.
        -- change [last; now] with ([last] ++ [now])%list.
           rewrite app_assoc. apply NoDup_snoc; [now apply NoDup_snoc |].
           intro A. apply in_app_or in A. destruct A as [A | [-> | []]];
             [now apply Hr | now apply Hn].
        -- intros a A. apply in_app_or in A. apply in_or_app.
           destruct A as [A | [<- | [<- | []]]];
             [left; now apply I | now left | right; now left].
        -- discriminate.
        -- discriminate.
      * repeat split; trivial.
        -- intros a A. apply in_or_app. left. now apply I.
        -- injection H as <-. apply in_or_app. right. now left.
        -- injection H as <-. exact Hr.
    + rewrite (ScheduleFacts.step_tapped_fresh s q em c r now x L) in E.
      destruct (c <=? now)%Z; [| discriminate E]. injection E as <-.
      unfold resolved_once; cbn [world comp emitted resolved
                                 lastTapRef set_lastTapRef].
      repeat split; trivial.
      * intros a A. apply in_or_app. left. now apply I.
      * injection H as <-. apply in_or_app. right. now left.
      * injection H as <-. exact Hr.
  - destruct (nth_error q k) as [tm |] eqn:K;
      [| cbn [step world timers] in E; rewrite K in E; discriminate E].
    rewrite (ScheduleFacts.step_expired s q em c r k tm K) in E.
    injection E as <-.
    destruct (lastTapRef s) as [last |] eqn:L; cbn [isLastTap].
    + destruct (Z.eqb_spec last (now_of tm)) as [<- | Ne].
      * destruct (P last eq_refl) as [Is Ir].
        unfold resolved_once; cbn [world comp emitted resolved
                                   lastTapRef set_lastTapRef].
        rewrite stamps_app, !map_app, M. cbn [stamps map isSingleOf isSingle].
        repeat split; trivial.
        -- now apply NoDup_snoc.
        -- intros a A. apply in_app_or in A.
           destruct A as [A | [<- | []]]; [now apply I | exact Is].
        -- discriminate.
        -- discriminate.
      * unfold resolved_once; cbn [world comp emitted resolved].
        rewrite L. repeat split; trivial; injection H as <-; now apply P.
    + unfold resolved_once; cbn [world comp emitted resolved]. rewrite L.
      repeat split; trivial; discriminate.
Qed.

Lemma resolved_once_exec (sch : list Event) :
  forall (seen : list Z) (l l' : Loop),
    resolved_once seen l ->
    NoDup (seen ++ map timestampMs (presses sch)) ->
    exec sch l = Some l' ->
    resolved_once (seen ++ map timestampMs (presses sch)) l'.
Proof.
  induction sch as [| e sch IH]; intros seen l l' R N E.
  - injection E as <-. cbn. now rewrite app_nil_r.
  - cbn [exec] in E. destruct (step l e) as [l1 |] eqn:S; [| discriminate E].
    pose proof (resolved_once_step seen l l1 e R S) as R1.
    destruct e as [now x | k]; cbn [presses map timestampMs] in *.
    + replace (seen ++ now :: map timestampMs (presses sch))%list
        with ((seen ++ [now]) ++ map timestampMs (presses sch))%list in *
        by (now rewrite <- app_assoc).
      apply (IH _ l1); trivial. apply R1.
      rewrite <- app_assoc in N. cbn [app] in N.
      apply NoDup_remove_2 in N. intro A. apply N, in_or_app. now left.
    + now apply (IH _ l1).
Qed.

End ResolvedFacts.

(** With every callback on time, the resolutions account for every tap. *)
Lemma on_time_accounting (taps : list Tap.TapEvent) (s : State) :
  lastTapRef s = None ->
  Forall (fun e => Tap.timestampMs e <> 0%Z) taps ->
  Tap.tapsOf (Tap.classify taps s) = List.length taps.
Proof.
  intros H F.
  assert (A0 : accounted 0 (Tap.timers (Tap.initialWorld s))
                 (Tap.initialWorld s)).
  { split.
    - unfold pendingTaps. cbn. now rewrite H.
    - cbn. intros t0 E. rewrite H in E. discriminate. }
  assert (O0 : ordered (Tap.timers (Tap.initialWorld s))) by constructor.
  pose proof (TapInvariant.taps_accounted taps 0 _ F A0 O0) as A.
  apply TapInvariant.settle_accounted in A.
  fold (Tap.run taps (Tap.initialWorld s)) in A.
  destruct A as [[C P] T]. unfold Tap.classify.
  destruct (lastTapRef (Tap.comp (Tap.run taps (Tap.initialWorld s))))
    as [t0 |] eqn:E.
  - destruct (P t0 eq_refl) as [_ []].
  - unfold pendingTaps in C. rewrite E in C. cbn in C. lia.
Qed.

(** C8, on the event loop as it is.  From a detector with no tap
    pending: under any schedule of presses with distinct timestamps and
    of timer callbacks, no tap is resolved twice.  Every call of
    [handleSingleTap] or [handleDoubleTap] is about taps that were
    pressed, no timestamp comes up in two of them, and a tap that a
    double tap has consumed is never resolved as a single tap as well:
    the timer of the first tap is not cleared, but its callback finds
    another value in [lastTapRef] and does nothing.  Not every tap is
    resolved, though.  With two presses 300 ms or more apart and the
    callback of the first one late, the second press overwrites
    [lastTapRef] and the first tap gets no resolution at all: one
    [Single] for two taps.  Only when every callback runs on time do
    the resolutions account for every tap, a single tap for one and a
    double tap for two. *)
Theorem taps_resolved_at_most_once (s : State) :
  lastTapRef s = None ->
  (forall c sch l,
     Schedule.exec sch (Schedule.start s c) = Some l ->
     NoDup (map Tap.timestampMs (Schedule.presses sch)) ->
     NoDup (stamps (Schedule.resolved l)) /\
     incl (stamps (Schedule.resolved l))
          (map Tap.timestampMs (Schedule.presses sch)) /\
     map isSingleOf (Schedule.resolved l)
     = map isSingle (Tap.emitted (Schedule.world l)) /\
     (forall a b,
        In (Schedule.DoubleOf a b) (Schedule.resolved l) ->
        ~ In (Schedule.SingleOf a) (Schedule.resolved l) /\
        ~ In (Schedule.SingleOf b) (Schedule.resolved l))) /\
  (forall t d x1 x2,
     (DOUBLE_TAP_DELAY <= d)%Z ->
     option_map
       (fun l => (Tap.emitted (Schedule.world l), Schedule.resolved l,
                  Tap.timers (Schedule.world l)))
       (Schedule.exec
          [Schedule.Tapped t x1; Schedule.Tapped (t + d) x2;
           Schedule.Expired 0; Schedule.Expired 0] (Schedule.start s t))
     = Some ([Tap.Single], [Schedule.SingleOf (t + d)], [])) /\
  (forall taps,
     Forall (fun e => Tap.timestampMs e <> 0%Z) taps ->
     Tap.tapsOf (Tap.classify taps s) = List.length taps).
Proof.
  intro H. split; [| split].
  - intros c sch l E N.
    assert (R0 : resolved_once [] (Schedule.start s c)).
    { unfold resolved_once. cbn. rewrite H.
      repeat split; try constructor; try discriminate. intros a []. }
    pose proof (ResolvedFacts.resolved_once_exec sch [] _ l R0 N E)
      as (N' & I & _ & M).
    cbn [app] in I. repeat split; trivial;
      now apply (ResolvedFacts.double_excludes_single _ a b N').
  - intros t d x1 x2 D. now apply ScheduleFacts.late_schedule.
  - intros taps F. now apply on_time_accounting.
Qed.

Lemma taps_resolved_at_most_once_witness :
  option_map
    (fun l => (Tap.emitted (Schedule.world l), Schedule.resolved l,
               Tap.timers (Schedule.world l)))
    (Schedule.exec
       [Schedule.Tapped 1000 100%Z; Schedule.Tapped (1000 + 301) 100%Z;
        Schedule.Expired 0; Schedule.Expired 0]
       (Schedule.start (stateOf (playerAt 5 100)) 1000))
  = Some ([Tap.Single], [Schedule.SingleOf (1000 + 301)], []).
Proof.
  apply (taps_resolved_at_most_once (stateOf (playerAt 5 100)) eq_refl).
  unfold DOUBLE_TAP_DELAY. lia.
Defined.

(** ** Auto-hide of the overlays *)

(** C3 does not hold of the effects: a trigger that arrives while the
    overlay is shown sets a flag that is already true, the effect is not
    run again, and the countdown of the first trigger goes on.  After
    triggers at [t0] and at [t1], with [t1] before the expiry
    [t0 + delay], the overlay is on screen at a later time [t] exactly
    when [t < t0 + delay].  With triggers at 0 and 2000 the play/pause
    overlay is shown at 2499 and hidden from 2500 on, not kept until
    4500; the seek indicator triggered at 0 and 500 is hidden at 1000. *)
Theorem overlay_retrigger_keeps_first_countdown (delay t0 t1 t : Z) :
  (t0 <= t1 < t0 + delay)%Z -> (t1 <= t)%Z ->
  Overlay.visibleAt delay [t0; t1] t = (t <? t0 + delay)%Z /\
  Overlay.playPauseOverlayVisibleAt [0; 2000]%Z 2499 = true /\
  Overlay.playPauseOverlayVisibleAt [0; 2000]%Z 2500 = false /\
  Overlay.playPauseOverlayVisibleAt [0; 2000]%Z 4499 = false /\
  Overlay.seekIndicatorVisibleAt [0; 500]%Z 1000 = false.
Proof.
  intros H Ht. split; [| repeat split; reflexivity].
  unfold Overlay.visibleAt. cbn [fold_left].
  assert (E0 : Overlay.trigger delay Overlay.initialOverlay t0
               = Overlay.mkOverlay true (Some 1%positive)
                   [(1%positive, (t0 + delay)%Z)] 2%positive) by reflexivity.
  rewrite E0.
  assert (E1 : Overlay.trigger delay
                 (Overlay.mkOverlay true (Some 1%positive)
                    [(1%positive, (t0 + delay)%Z)] 2%positive) t1
               = Overlay.mkOverlay true (Some 1%positive)
                   [(1%positive, (t0 + delay)%Z)] 2%positive).
  { unfold Overlay.trigger, Overlay.advance.
    cbn [Overlay.pending List.length Overlay.expire].
    destruct (Z.leb_spec (t0 + delay) t1); [lia | reflexivity]. }
  rewrite E1.
  unfold Overlay.advance. cbn [Overlay.pending List.length Overlay.expire].
  destruct (Z.leb_spec (t0 + delay) t); destruct (Z.ltb_spec t (t0 + delay));
    try lia; reflexivity.
Qed.

Lemma overlay_retrigger_keeps_first_countdown_witness :
  Overlay.visibleAt 2500 [0; 2000]%Z 3000 = (3000 <? 0 + 2500)%Z.
Proof.
  apply (overlay_retrigger_keeps_first_countdown 2500 0 2000 3000); lia.
Defined.

(** * Further properties of the player screen *)

(** ** Play, pause and mute *)

(** X1: after [togglePlayPause] the player plays exactly when it did not
    before, and the [isPlaying] state agrees with the player, whatever
    it said before; the position and the duration are not touched, and
    a second toggle gives the player back as it was. *)
Theorem togglePlayPause_flips (s : State) (p : Player) :
  player s = Some p ->
  let s1 := togglePlayPause s in
  player s1 = Some (set_p_playing (negb (p_playing p)) p) /\
  isPlaying s1 = negb (p_playing p) /\
  position s1 = position s /\
  currentTime s1 = currentTime s /\
  player (togglePlayPause s1) = Some (set_p_playing (p_playing p) p) /\
  isPlaying (togglePlayPause s1) = p_playing p.
Proof.
  intros H s1. subst s1. unfold togglePlayPause, position. rewrite H.
  destruct p as [c d pl m st]. destruct pl; cbn; rewrite ?H; repeat split.
Qed.

Lemma togglePlayPause_flips_witness :
  isPlaying (togglePlayPause (stateOf (playerAt 5 100))) = false.
Proof.
  apply (togglePlayPause_flips (stateOf (playerAt 5 100)) (playerAt 5 100)
           eq_refl).
Defined.

(** X2: [toggleMute] goes by the [isMuted] state, not by the player:
    afterwards both the state and the player hold the negation of the
    old state, whatever the player held before; two toggles give the
    old state back, in the player too. *)
Theorem toggleMute_follows_state (s : State) (p : Player) :
  player s = Some p ->
  let s1 := toggleMute s in
  isMuted s1 = negb (isMuted s) /\
  player s1 = Some (set_p_muted (negb (isMuted s)) p) /\
  isMuted (toggleMute s1) = isMuted s /\
  player (toggleMute s1) = Some (set_p_muted (isMuted s) p).
Proof.
  intros H s1. subst s1. unfold toggleMute. rewrite H. cbn.
  rewrite negb_involutive. repeat split.
Qed.

Lemma toggleMute_follows_state_witness :
  isMuted (toggleMute (stateOf (playerAt 5 100))) = true.
Proof.
  apply (toggleMute_follows_state (stateOf (playerAt 5 100)) (playerAt 5 100)
           eq_refl).
Defined.

(** ** Seeks that compose *)

Lemma playing_at_seekForward (s : State) (cur dur : Q) :
  playing_at cur dur s ->
  exists r, playing_at r dur (seekForward s) /\ r == Qmin (cur + 10) dur.
Proof.
  intros (p & Hp & Hc & Hd). unfold seekForward. rewrite Hp, Hc, Hd.
  destruct (Math_min_Fin (cur + inject_Z 10) dur) as (r & E & Hr).
  exists r. split; [| exact Hr].
  unfold of_Z. cbn [add]. rewrite E.
  eexists. split; [reflexivity |]. split; [reflexivity | exact Hd].
Qed.

Lemma playing_at_seekBackward (s : State) (cur dur : Q) :
  playing_at cur dur s ->
  exists r, playing_at r dur (seekBackward s) /\ r == Qmax (cur - 10) 0.
Proof.
  intros (p & Hp & Hc & Hd). unfold seekBackward. rewrite Hp, Hc.
  destruct (Math_max_Fin (cur + - inject_Z 10) (inject_Z 0)) as (r & E & Hr).
  exists r. split; [| exact Hr].
  unfold of_Z. cbn [sub neg add]. rewrite E.
  eexists. split; [reflexivity |]. split; [reflexivity | exact Hd].
Qed.

(** X3: seeks composed.  A forward seek followed by a backward seek
    ends at [max (min (current + 10, duration) - 10, 0)]: within the
    last 10 seconds the forward seek stops at the duration and the
    backward seek then lands at [max (duration - 10, 0)], not at the
    starting position.  A backward seek followed by a forward seek ends
    at [min (max (current - 10, 0) + 10, duration)]: within the first
    10 seconds the backward seek stops at 0 and the forward seek then
    lands at [min (10, duration)]. *)
Theorem seek_forward_then_backward (s : State) (cur dur : Q) :
  playing_at cur dur s -> 0 <= cur -> 0 <= dur ->
  position (seekBackward (seekForward s))
  =n= Fin (Qmax (Qmin (cur + 10) dur - 10) 0) /\
  position (seekForward (seekBackward s))
  =n= Fin (Qmin (Qmax (cur - 10) 0 + 10) dur) /\
  (dur <= cur + 10 ->
   position (seekForward s) =n= Fin dur /\
   position (seekBackward (seekForward s)) =n= Fin (Qmax (dur - 10) 0)) /\
  (cur <= 10 ->
   position (seekBackward s) =n= Fin 0 /\
   position (seekForward (seekBackward s)) =n= Fin (Qmin 10 dur)).
Proof.
  intros H Hc Hd.
  destruct (seekForward_target _ _ _ H) as (f0 & Ef0 & Hf0).
  destruct (seekBackward_target _ _ _ H) as (b0 & Eb0 & Hb0).
  destruct (playing_at_seekForward s cur dur H) as (f & Hf & Ef).
  destruct (seekBackward_target _ _ _ Hf) as (fb & Efb & Hfb).
  destruct (playing_at_seekBackward s cur dur H) as (b & Hb & Eb).
  destruct (seekForward_target _ _ _ Hb) as (bf & Ebf & Hbf).
  rewrite Efb, Ebf, Ef0, Eb0. cbn [eqv].
  destruct (Q.min_spec (cur + 10) dur) as [[? E1] | [? E1]];
    destruct (Q.max_spec (f - 10) 0) as [[? E2] | [? E2]];
    destruct (Q.max_spec (cur - 10) 0) as [[? E3] | [? E3]];
    destruct (Q.min_spec (b + 10) dur) as [[? E4] | [? E4]];
    destruct (Q.max_spec (dur - 10) 0) as [[? E5] | [? E5]];
    destruct (Q.min_spec 10 dur) as [[? E6] | [? E6]];
    destruct (Q.max_spec (Qmin (cur + 10) dur - 10) 0) as [[? E7] | [? E7]];
    destruct (Q.min_spec (Qmax (cur - 10) 0 + 10) dur) as [[? E8] | [? E8]];
    rewrite E1 in *; rewrite E3 in *; rewrite E2 in Hfb; rewrite E4 in Hbf;
    rewrite ?E5, ?E6, ?E7, ?E8; repeat split; intros; lra.
Qed.

Lemma seek_forward_then_backward_witness :
  position (seekBackward (seekForward (stateOf (playerAt 95 100))))
  =n= Fin (Qmax (100 - 10) 0).
Proof.
  apply (seek_forward_then_backward (stateOf (playerAt 95 100)) 95 100);
    [apply (playing_at_stateOf 95 100) | discriminate ..].
Defined.

(** X4: [seekForward] relies on the duration being a number.  With an
    infinite duration it moves exactly 10 seconds ahead, without bound;
    with a NaN duration it stores NaN as the position, in the player and
    in the state.  [seekBackward] does not read the duration and is not
    affected. *)
Theorem seekForward_without_finite_duration (s : State) (p : Player) (cur : Q) :
  player s = Some p -> p_currentTime p = Fin cur ->
  (p_duration p = PosInf -> position (seekForward s) = Fin (cur + 10)) /\
  (p_duration p = NaN ->
   position (seekForward s) = NaN /\ currentTime (seekForward s) = NaN) /\
  (exists r, position (seekBackward s) = Fin r /\ r == Qmax (cur - 10) 0).
Proof.
  intros Hp Hc. split; [| split].
  - intro Hd. rewrite (position_seekForward s p Hp), Hc, Hd. reflexivity.
  - intro Hd. unfold seekForward, position. rewrite Hp, Hc, Hd.
    split; reflexivity.
  - rewrite (position_seekBackward s p Hp), Hc.
    apply (Math_max_Fin (cur + - inject_Z 10) (inject_Z 0)).
Qed.

Lemma seekForward_without_finite_duration_witness :
  position (seekForward (stateOf (mkPlayer 5%Z NaN true false "loading")))
  = NaN.
Proof.
  apply (seekForward_without_finite_duration
           (stateOf (mkPlayer 5%Z NaN true false "loading"))
           (mkPlayer 5%Z NaN true false "loading") 5 eq_refl eq_refl).
  reflexivity.
Defined.

(** ** Progress of the video *)



(** ** Whole seconds in the formatted time *)

Lemma formatTime_whole (q : Q) :
  1 <= q ->
  formatTime (JNum (Fin q))
  = (decimal (Qfloor q / 60) ++ ":" ++ two_digits (Qfloor q mod 60))%string.
Proof.
  intro H. unfold formatTime. cbn [falsy global_isNaN truthy isNaN toNumber].
  destruct (Qeq_bool_spec q 0) as [E | _]; [lra |].
  cbn [negb orb Math_floor of_inum of_Z div rem Number_toString].
  change (Qeq_bool (inject_Z 60) 0) with false. cbv iota.
  cbn [Math_floor Number_toString]. change (60 =? 0)%Z with false. cbv iota.
  assert (N : (1 <= Qfloor q)%Z) by (apply (Qfloor_resp_le 1 q H)).
  assert (D : Qfloor (inject_Z (Qfloor q) / inject_Z 60) = (Qfloor q / 60)%Z).
  { unfold Qdiv, Qmult, Qinv, inject_Z, Qfloor. cbn [Qnum Qden].
    now rewrite Z.mul_1_r. }
  rewrite D, Z.rem_mod_nonneg by lia. cbn [Number_toString].
  rewrite padStart_two_digits by (apply Z.mod_pos_bound; lia).
  reflexivity.
Qed.

Lemma length_append (a b : string) :
  String.length (a ++ b) = (String.length a + String.length b)%nat.
Proof. induction a as [| c a IH]; cbn; [reflexivity | now rewrite IH]. Qed.

Lemma append_same_length_suffix (a b u v : string) :
  (a ++ u)%string = (b ++ v)%string -> String.length u = String.length v ->
  a = b /\ u = v.
Proof.
  revert b. induction a as [| c a IH]; intros [| c' b] E L; cbn in E.
  - now split.
  - exfalso. apply (f_equal String.length) in E. cbn in E.
    rewrite length_append in E. lia.
  - exfalso. apply (f_equal String.length) in E. cbn in E.
    rewrite length_append in E. lia.
  - injection E as -> E. destruct (IH b E L) as [-> ->]. now split.
Qed.

Lemma decimal_inj (a b : Z) : decimal a = decimal b -> a = b.
Proof.
  unfold decimal. intro E.
  assert (P : forall z,
             NilZero.int_of_string (NilZero.string_of_int (Z.to_int z))
             = Some (Z.to_int z)).
  { intro z. apply NilZero.isi; destruct z as [| p | p]; cbn; try discriminate;
      intros [= H]; revert H; apply DecimalPos.Unsigned.to_uint_nonnil. }
  pose proof (P a) as Pa. rewrite E, P in Pa. injection Pa as Pa.
  rewrite <- (DecimalZ.of_to a), <- (DecimalZ.of_to b). now rewrite Pa.
Qed.

Lemma digit_inj (a b : Z) :
  (0 <= a < 10)%Z -> (0 <= b < 10)%Z -> digit a = digit b -> a = b.
Proof.
  intros Ha Hb E. unfold digit in E.
  apply (f_equal nat_of_ascii) in E.
  rewrite !nat_ascii_embedding in E by lia. lia.
Qed.

Lemma two_digits_inj (a b : Z) :
  (0 <= a < 100)%Z -> (0 <= b < 100)%Z -> two_digits a = two_digits b -> a = b.
Proof.
  intros Ha Hb E. unfold two_digits in E. injection E as E1 E0.
  apply digit_inj in E1;
    [| split; [apply Z.div_pos | apply Z.div_lt_upper_bound]; lia ..].
  apply digit_inj in E0; [| apply Z.mod_pos_bound; lia ..].
  rewrite (Z.div_mod a 10), (Z.div_mod b 10) by lia. congruence.
Qed.

(** X6: from one second on, and below 2^53 seconds, [formatTime] shows
    the whole seconds and nothing else: a time and its integer part are
    formatted alike, the part after the colon has two digits and is
    below 60, and two times are formatted alike only if they agree on
    the whole seconds.  Below one second every time reads 0:00. *)
Theorem formatTime_whole_seconds (p q : Q) :
  1 <= p -> p < inject_Z (2 ^ 53) -> 1 <= q -> q < inject_Z (2 ^ 53) ->
  formatTime (JNum (Fin p)) = formatTime (JNum (Fin (inject_Z (Qfloor p)))) /\
  (exists m r, formatTime (JNum (Fin p))
               = (decimal m ++ ":" ++ two_digits r)%string /\
               (0 <= r < 60)%Z /\ Qfloor p = (60 * m + r)%Z) /\
  (formatTime (JNum (Fin p)) = formatTime (JNum (Fin q)) <->
   Qfloor p = Qfloor q) /\
  (forall x, 0 <= x -> x < 1 -> formatTime (JNum (Fin x)) = "0:00"%string).
Proof.
  intros Hp _ Hq _.
  assert (Np : (1 <= Qfloor p)%Z) by (apply (Qfloor_resp_le 1 p Hp)).
  assert (Nq : (1 <= Qfloor q)%Z) by (apply (Qfloor_resp_le 1 q Hq)).
  assert (Ip : 1 <= inject_Z (Qfloor p))
    by (change (inject_Z 1 <= inject_Z (Qfloor p));
        rewrite <- Zle_Qle; exact Np).
  split; [| split; [| split]].
  - rewrite (formatTime_whole p Hp), (formatTime_whole _ Ip).
    now rewrite Qfloor_Z.
  - exists (Qfloor p / 60)%Z, (Qfloor p mod 60)%Z.
    split; [now apply formatTime_whole |].
    split; [apply Z.mod_pos_bound; lia | apply Z.div_mod; lia].
  - rewrite (formatTime_whole p Hp), (formatTime_whole q Hq). split.
    + intro E. apply append_same_length_suffix in E; [| reflexivity].
      destruct E as [Em Er]. apply decimal_inj in Em.
      assert (Er' : two_digits (Qfloor p mod 60) = two_digits (Qfloor q mod 60))
        by (cbn [append] in Er; congruence).
      clear Er. rename Er' into Er.
      apply two_digits_inj in Er;
        [| pose proof (Z.mod_pos_bound (Qfloor p) 60);
           pose proof (Z.mod_pos_bound (Qfloor q) 60); lia ..].
      rewrite (Z.div_mod (Qfloor p) 60), (Z.div_mod (Qfloor q) 60) by lia.
      congruence.
    + intros ->. reflexivity.
  - intros x H0 H1. unfold formatTime.
    cbn [falsy global_isNaN truthy isNaN toNumber].
    destruct (Qeq_bool_spec x 0) as [E | _]; [reflexivity |].
    cbn [negb orb Math_floor].
    assert (F : Qfloor x = 0%Z).
    { pose proof (Qfloor_le x) as L. pose proof (Qlt_floor x) as U.
      assert (A : (Qfloor x < 1)%Z).
      { rewrite Zlt_Qlt. change (inject_Z 1) with 1. lra. }
      assert (B : (0 < Qfloor x + 1)%Z).
      { rewrite Zlt_Qlt. change (inject_Z 0) with 0. lra. }
      lia. }
    rewrite F. reflexivity.
Qed.

Lemma formatTime_whole_seconds_witness :
  formatTime (JNum (Fin (3599 # 2)))
  = formatTime (JNum (Fin (inject_Z (Qfloor (3599 # 2))))).
Proof.
  apply (formatTime_whole_seconds (3599 # 2) 2);
    discriminate || reflexivity.
Defined.

(** ** What a tick of the poll stores *)

Lemma or_else_zero_not_NaN (a : num) : isNaN (or_else a 0%Z) = false.
Proof.
  destruct a; unfold or_else; cbn [truthy]; try reflexivity.
  destruct (Qeq_bool q 0); reflexivity.
Qed.

(** X7: outside of a drag, a tick of the poll never stores NaN as the
    time or as the duration (a NaN or zero reading of the player is
    stored as 0); it copies the playing flag of the player; it leaves
    the seekbar where it is unless the duration is positive; and a
    second tick with nothing changed in between changes nothing. *)
Theorem pollTick_reads_player (seekbarPadding : num) (s : State) (p : Player) :
  player s = Some p -> isDragging s = false ->
  let s1 := pollTick seekbarPadding s in
  isNaN (currentTime s1) = false /\
  isNaN (duration s1) = false /\
  isPlaying s1 = p_playing p /\
  ((duration s1 >? 0%Z)%num = false ->
   seekbarValue s1 = seekbarValue s /\
   seekbarPosition s1 = seekbarPosition s) /\
  pollTick seekbarPadding s1 = s1.
Proof.
  intros Hp Hd s1. subst s1. destruct s; cbn in Hp, Hd; subst.
  pose proof (or_else_zero_not_NaN (p_currentTime p)) as Nc.
  pose proof (or_else_zero_not_NaN (p_duration p)) as Nd.
  unfold pollTick, seekbarWidth. cbn [player isDragging negb screenWidth].
  remember (or_else (p_duration p) 0%Z >? 0%Z)%num as g eqn:G.
  destruct g; simpl_state; rewrite <- G; simpl_state;
    repeat split; trivial; discriminate.
Qed.

Lemma pollTick_reads_player_witness :
  isNaN (currentTime
           (pollTick 16%Z (stateOf (mkPlayer NaN NaN true false "loading"))))
  = false.
Proof.
  apply (pollTick_reads_player 16%Z
           (stateOf (mkPlayer NaN NaN true false "loading"))
           (mkPlayer NaN NaN true false "loading") eq_refl eq_refl).
Defined.

(** ** A press on the seekbar *)

Lemma newProgress_unit (x o w : Q) :
  0 < w ->
  exists r, newProgress (Fin x) (mkLayout (Fin w) (Fin o)) = Fin r /\
            r == clamp ((x - o) / w) 0 1 /\ 0 <= r /\ r <= 1.
Proof.
  intro Hw.
  destruct (newProgress_finite x o w) as (r & E & Hr); [intro; lra |].
  exists r. pose proof (clamp_unit_range ((x - o) / w)) as [R0 R1].
  repeat split; trivial; lra.
Qed.

Lemma handleSeekbarPress_positive (m : Layout) (x : num) (s : State)
    (p : Player) (d : Q) :
  player s = Some p -> duration s = Fin d -> 0 < d ->
  handleSeekbarPress (Some m) x s
  = let np := newProgress x m in
    let newTime := (np * Fin d)%num in
    setCurrentTime newTime
      (set_player (Some (set_p_currentTime newTime p))
         (setSeekbarPosition (np * trackWidth m)%num (setSeekbarValue np s))).
Proof.
  intros Hp Hd H. unfold handleSeekbarPress. cbv zeta.
  cbn [player setSeekbarPosition setSeekbarValue]. rewrite Hp, Hd.
  unfold gt, of_Z. cbn [lt].
  destruct (Qltb_spec (inject_Z 0) d) as [_ | N]; [reflexivity |].
  exfalso. change (inject_Z 0) with 0 in N. lra.
Qed.

(** X8: on a track of positive width and with a positive [duration]
    state, a press seeks to [fraction * duration], which lies in
    [0, duration], in the player and in the [currentTime] state alike:
    a press at or left of the origin seeks to 0, a press at or right of
    the end to the duration.  With a [duration] state that is not
    positive the press moves the seekbar only: the player and
    [currentTime] are not touched. *)
Theorem handleSeekbarPress_seeks (x o w d : Q) (s : State) (p : Player) :
  player s = Some p -> duration s = Fin d -> 0 < w ->
  let s1 := handleSeekbarPress (Some (mkLayout (Fin w) (Fin o))) (Fin x) s in
  (0 < d ->
   exists t, position s1 = Fin t /\ currentTime s1 = Fin t /\
             t == clamp ((x - o) / w) 0 1 * d /\ 0 <= t /\ t <= d /\
             (x <= o -> t == 0) /\ (o + w <= x -> t == d)) /\
  (d <= 0 -> player s1 = player s /\ currentTime s1 = currentTime s).
Proof.
  intros Hp Hd Hw s1. subst s1. split.
  - intro H. rewrite (handleSeekbarPress_positive _ _ _ p d Hp Hd H).
    destruct (newProgress_unit x o w Hw) as (r & E & Hr & R0 & R1).
    cbv zeta. rewrite E. cbn [mul position player setCurrentTime set_player
                              currentTime p_currentTime set_p_currentTime].
    exists (r * d). split; [reflexivity |]. split; [reflexivity |].
    split; [now rewrite Hr |]. split; [nra |]. split; [nra |].
    assert (Q0 : x <= o -> (x - o) / w <= 0).
    { intro L. apply Qle_shift_div_r; lra. }
    assert (Q1 : o + w <= x -> 1 <= (x - o) / w).
    { intro L. apply Qle_shift_div_l; lra. }
    unfold clamp in Hr.
    split; intro L; [apply Q0 in L | apply Q1 in L];
      destruct (Qltb_spec ((x - o) / w) 0);
      try destruct (Qltb_spec 1 ((x - o) / w)); nra.
  - intro H. unfold handleSeekbarPress. cbv zeta.
    cbn [player setSeekbarPosition setSeekbarValue]. rewrite Hp, Hd.
    unfold gt, of_Z. cbn [lt].
    destruct (Qltb_spec (inject_Z 0) d) as [N | _]; [| now split].
    exfalso. change (inject_Z 0) with 0 in N. lra.
Qed.

Lemma handleSeekbarPress_seeks_witness :
  exists t, position (handleSeekbarPress (Some (mkLayout (Fin 320) (Fin 0)))
                        (Fin 160)
                        (setDuration (Fin 100) (stateOf (playerAt 5 100))))
            = Fin t /\ 0 <= t /\ t <= 100.
Proof.
  destruct (handleSeekbarPress_seeks 160 0 320 100
              (setDuration (Fin 100) (stateOf (playerAt 5 100)))
              (playerAt 5 100) eq_refl eq_refl eq_refl) as [P _].
  destruct (P eq_refl) as (t & E & _ & _ & L & U & _).
  exists t. repeat split; assumption.
Defined.

Lemma or_else_positive (d : Q) : 0 < d -> or_else (Fin d) 0%Z = Fin d.
Proof.
  intro H. unfold or_else. cbn [truthy].
  destruct (Qeq_bool_spec d 0) as [Z0 | _]; [lra | reflexivity].
Qed.

Lemma gt_zero_positive (d : Q) : 0 < d -> (Fin d >? 0%Z)%num = true.
Proof.
  intro H. unfold gt, of_Z. cbn [lt]. apply Qltb_true.
  change (inject_Z 0) with 0. exact H.
Qed.

(** A tick outside of a drag, for a player with a positive duration. *)
Lemma pollTick_positive (seekbarPadding : num) (s : State) (p : Player)
    (d : Q) :
  player s = Some p -> isDragging s = false ->
  p_duration p = Fin d -> 0 < d ->
  seekbarValue (pollTick seekbarPadding s)
  = (or_else (p_currentTime p) 0%Z / Fin d)%num /\
  currentTime (pollTick seekbarPadding s) = or_else (p_currentTime p) 0%Z /\
  seekbarPosition (pollTick seekbarPadding s)
  = (or_else (p_currentTime p) 0%Z / Fin d
     * seekbarWidth seekbarPadding s)%num.
Proof.
  intros Hp Hg Hd H. unfold pollTick. rewrite Hp, Hg, Hd. cbn [negb].
  rewrite (or_else_positive d H), (gt_zero_positive d H).
  repeat split; reflexivity.
Qed.

(** X9: the tick that follows a press.  On a track of positive width,
    when the [duration] state is the positive duration of the player,
    the tick keeps the time the press sought to and recomputes the
    seekbar from it: [seekbarValue] is again a fraction in [0, 1], and
    [seekbarPosition] is that fraction of [seekbarWidth], the width
    derived from the screen, not of the measured width of the track
    that the press used. *)
Theorem press_then_poll (seekbarPadding : num) (x o w d : Q) (s : State)
    (p : Player) :
  player s = Some p -> isDragging s = false ->
  duration s = Fin d -> p_duration p = Fin d -> 0 < d -> 0 < w ->
  let s1 := handleSeekbarPress (Some (mkLayout (Fin w) (Fin o))) (Fin x) s in
  let s2 := pollTick seekbarPadding s1 in
  currentTime s2 =n= currentTime s1 /\
  (exists v, seekbarValue s2 = Fin v /\ 0 <= v /\ v <= 1 /\
             seekbarPosition s2
             = (Fin v * seekbarWidth seekbarPadding s)%num).
Proof.
  intros Hp Hg Hd Hpd H Hw s1 s2. subst s2 s1.
  rewrite (handleSeekbarPress_positive _ _ _ p d Hp Hd H).
  destruct (newProgress_unit x o w Hw) as (r & E & Hr & R0 & R1).
  cbv zeta. rewrite E. cbn [mul].
  match goal with
  | |- context [pollTick _ ?st] =>
      destruct (pollTick_positive seekbarPadding st
                  (set_p_currentTime (Fin (r * d)) p) d
                  eq_refl Hg Hpd H) as (V & T & P)
  end.
  rewrite V, T, P. simpl_state. cbn [p_currentTime set_p_currentTime].
  unfold seekbarWidth. simpl_state.
  unfold or_else. cbn [truthy].
  destruct (Qeq_bool_spec (r * d) 0) as [Z1 | N1]; cbn [negb div of_Z].
  - destruct (Qeq_bool_spec d 0) as [Z0 | _]; [lra |]. cbn [eqv]. split.
    + change (inject_Z 0) with 0. symmetry. exact Z1.
    + exists (inject_Z 0 / d). split; [reflexivity |].
      change (inject_Z 0) with 0.
      split; [apply Qle_shift_div_l; lra |].
      split; [apply Qle_shift_div_r; lra | reflexivity].
  - destruct (Qeq_bool_spec d 0) as [Z0 | _]; [lra |]. cbn [eqv].
    split; [reflexivity |].
    exists (r * d / d). split; [reflexivity |].
    split; [apply Qle_shift_div_l; nra |].
    split; [apply Qle_shift_div_r; nra | reflexivity].
Qed.

Lemma press_then_poll_witness :
  currentTime
    (pollTick 16%Z
       (handleSeekbarPress (Some (mkLayout (Fin 320) (Fin 0))) (Fin 160)
          (setDuration (Fin 100) (stateOf (playerAt 5 100)))))
  =n= currentTime
        (handleSeekbarPress (Some (mkLayout (Fin 320) (Fin 0))) (Fin 160)
           (setDuration (Fin 100) (stateOf (playerAt 5 100)))).
Proof.
  apply (press_then_poll 16%Z 160 0 320 100
           (setDuration (Fin 100) (stateOf (playerAt 5 100)))
           (playerAt 5 100) eq_refl eq_refl eq_refl eq_refl eq_refl eq_refl).
Defined.

(** X10: on a track of positive width the press and pan handlers keep
    the seekbar inside the track: [seekbarPosition] lies in
    [0, trackWidth], and the left edge of the thumb, for a thumb radius
    that is not negative, in [0, seekbarPosition]. *)
Theorem seekbar_stays_on_track (x o w h : Q) (s : State) :
  0 < w -> 0 <= h ->
  let m := Some (mkLayout (Fin w) (Fin o)) in
  forall s1,
    s1 = handleSeekbarPress m (Fin x) s \/
    s1 = onPanResponderGrant m (Fin x) s \/
    s1 = onPanResponderMove m (Fin x) s ->
    exists sp tl,
      seekbarPosition s1 = Fin sp /\ 0 <= sp /\ sp <= w /\
      thumbLeft (Fin h) s1 = Fin tl /\ 0 <= tl /\ tl <= sp.
Proof.
  intros Hw Hh m s1 Hs.
  destruct (newProgress_unit x o w Hw) as (r & E & Hr & R0 & R1).
  assert (P : seekbarPosition s1 = Fin (r * w)).
  { destruct Hs as [-> | [-> | ->]]; subst m.
    - unfold handleSeekbarPress. cbv zeta. rewrite E.
      cbn [player setSeekbarPosition setSeekbarValue trackWidth mul].
      destruct (player s); [destruct (duration s >? 0%Z)%num |]; reflexivity.
    - unfold onPanResponderGrant. cbv zeta. rewrite E. reflexivity.
    - unfold onPanResponderMove. cbv zeta. rewrite E. reflexivity. }
  unfold thumbLeft. rewrite P. cbn [sub neg add].
  destruct (Math_max_Fin (inject_Z 0) (r * w + - h)) as (tl & Et & Ht).
  exists (r * w), tl. unfold of_Z. rewrite Et.
  destruct (Q.max_spec (inject_Z 0) (r * w + - h)) as [[? E1] | [? E1]];
    rewrite E1 in Ht; change (inject_Z 0) with 0 in *;
    repeat split; trivial; nra.
Qed.

Lemma seekbar_stays_on_track_witness :
  exists sp tl,
    seekbarPosition
      (onPanResponderMove (Some (mkLayout (Fin 320) (Fin 0))) (Fin 500)
         (stateOf (playerAt 5 100))) = Fin sp /\ 0 <= sp /\ sp <= 320 /\
    thumbLeft (Fin 8)
      (onPanResponderMove (Some (mkLayout (Fin 320) (Fin 0))) (Fin 500)
         (stateOf (playerAt 5 100))) = Fin tl /\ 0 <= tl /\ tl <= sp.
Proof.
  apply (seekbar_stays_on_track 500 0 320 8 (stateOf (playerAt 5 100))
           eq_refl); [discriminate | right; right; reflexivity].
Defined.

(** ** The end of a drag *)

(** X11: the pan responder is the one the first render created, and its
    release callback reads the [duration] of that render, which is 0:
    releasing a drag never seeks.  After a whole gesture (grant, moves
    and ticks, release) the player and [currentTime] are what they were
    before it, only the seekbar and the cleared drag flag tell of it;
    and with a positive duration the next tick puts the seekbar back at
    the progress of the player.  A release callback that had captured a
    positive duration would seek to the product of the captured values,
    not to the position dragged to. *)
Theorem drag_release_never_seeks (seekbarPadding : num) (r : option Layout)
    (x : num) (s : State) (evs : list DragEvent) :
  let s1 := fold_left (dragStep seekbarPadding) evs
              (onPanResponderGrant r x s) in
  let s2 := onPanResponderRelease firstRender s1 in
  s2 = setIsDragging false s1 /\
  player s2 = player s /\
  currentTime s2 = currentTime s /\
  duration s2 = duration s /\
  (forall p, player s = Some p ->
     (or_else (p_duration p) 0%Z >? 0%Z)%num = true ->
     seekbarValue (pollTick seekbarPadding s2)
     = (or_else (p_currentTime p) 0%Z / or_else (p_duration p) 0%Z)%num) /\
  (forall c p, player s = Some p -> (c_duration c >? 0%Z)%num = true ->
     position (onPanResponderRelease c s1)
     = (c_seekbarValue c * c_duration c)%num).
Proof.
  intros s1 s2.
  assert (G : isDragging (onPanResponderGrant r x s) = true)
    by apply isDragging_grant.
  assert (K : forall evs s0,
             isDragging s0 = true ->
             let s' := fold_left (dragStep seekbarPadding) evs s0 in
             player s' = player s0 /\ currentTime s' = currentTime s0 /\
             duration s' = duration s0).
  { clear. intros evs. induction evs as [| e evs IH]; intros s0 H;
      cbn [fold_left]; [now repeat split |].
    destruct (IH (dragStep seekbarPadding s0 e)
                 (dragStep_dragging seekbarPadding s0 e H)) as (A & B & C).
    rewrite A, B, C. destruct e as [r x |]; cbn [dragStep].
    - destruct r; now repeat split.
    - rewrite (pollTick_dragging seekbarPadding s0 H). now repeat split. }
  destruct (K evs _ G) as (A & B & C). fold s1 in A, B, C.
  assert (A0 : player s1 = player s) by (rewrite A; now destruct r).
  assert (B0 : currentTime s1 = currentTime s) by (rewrite B; now destruct r).
  assert (C0 : duration s1 = duration s) by (rewrite C; now destruct r).
  assert (R : s2 = setIsDragging false s1).
  { subst s2. unfold onPanResponderRelease. now destruct (player s1). }
  split; [exact R |]. rewrite R. simpl_state.
  split; [exact A0 |]. split; [exact B0 |]. split; [exact C0 |]. split.
  - intros p Hp Hg. unfold pollTick. simpl_state. rewrite A0, Hp, Hg.
    reflexivity.
  - intros c p Hp Hg. unfold onPanResponderRelease, position.
    rewrite A0, Hp, Hg. reflexivity.
Qed.

(** ** More on single and double taps *)

Lemma isLastTap_other (now last : Z) :
  last <> now -> Tap.isLastTap now (Some last) = false.
Proof. intro H. cbn. now apply Z.eqb_neq. Qed.

(** The state of the detector after a double tap at [t] and [t + a]. *)
Lemma double_tap_world (s : State) (t a : Z) (x1 x2 : num) :
  lastTapRef s = None -> t <> 0%Z -> (a < DOUBLE_TAP_DELAY)%Z ->
  fold_left Tap.tap [Tap.mkTap t x1; Tap.mkTap (t + a) x2] (Tap.initialWorld s)
  = Tap.mkWorld
      (set_lastTapRef None (handleDoubleTap x2 (set_lastTapRef (Some t) s)))
      [Tap.mkTimer (t + DOUBLE_TAP_DELAY) t]
      [Tap.Double (Tap.isLeftHalf x2 s)].
Proof.
  intros H Ht Ha. cbn [fold_left]. rewrite (TapFacts.first_tap s t x1 H).
  unfold Tap.tap, Tap.advance.
  cbn [Tap.timers Tap.fire Tap.due Tap.comp Tap.emitted
       Tap.timestampMs Tap.xPosition].
  destruct (Z.leb_spec (t + DOUBLE_TAP_DELAY) (t + a)); [lia |].
  rewrite TapFacts.handleVideoTap_double
    by (apply TapFacts.isDoubleTap_within; [trivial | cbn; lia]).
  reflexivity.
Qed.

(** X12: the third tap of a quick triple starts over.  On a detector with
    no tap pending, taps at [t], [t + a] and [t + b], the second less
    than 300 ms after the first and the third not before the second, are
    resolved as one double tap followed by one single tap, however soon
    the third tap comes.  The first timestamp is not 0. *)
Theorem triple_tap (s : State) (t a b : Z) (x1 x2 x3 : num) :
  lastTapRef s = None -> t <> 0%Z ->
  (0 <= a < DOUBLE_TAP_DELAY)%Z -> (a <= b)%Z ->
  Tap.classify
    [Tap.mkTap t x1; Tap.mkTap (t + a) x2; Tap.mkTap (t + b) x3] s
  = [Tap.Double (Tap.isLeftHalf x2 s); Tap.Single].
Proof.
  intros H Ht Ha Hb. unfold Tap.classify, Tap.run.
  change [Tap.mkTap t x1; Tap.mkTap (t + a) x2; Tap.mkTap (t + b) x3]
    with ([Tap.mkTap t x1; Tap.mkTap (t + a) x2]
            ++ [Tap.mkTap (t + b) x3])%list.
  rewrite fold_left_app, (double_tap_world s t a x1 x2 H Ht) by lia.
  cbn [fold_left]. unfold Tap.tap, Tap.advance.
  cbn [Tap.timers Tap.fire Tap.due Tap.now_of Tap.timestampMs Tap.xPosition].
  destruct (Z.leb_spec (t + DOUBLE_TAP_DELAY) (t + b)) as [L | L].
  - rewrite TapFacts.onTimeout_stale by reflexivity.
    cbn [Tap.comp Tap.emitted].
    rewrite TapFacts.handleVideoTap_fresh by reflexivity.
    cbn [Tap.timers Tap.setTimeout Tap.settle Tap.now_of].
    rewrite TapFacts.onTimeout_pending by reflexivity. reflexivity.
  - cbn [Tap.comp Tap.emitted].
    rewrite TapFacts.handleVideoTap_fresh by reflexivity.
    cbn [Tap.timers Tap.setTimeout Tap.due].
    destruct (Z.leb_spec (t + DOUBLE_TAP_DELAY) (t + b + DOUBLE_TAP_DELAY));
      [| lia].
    cbn [Tap.settle Tap.now_of].
    destruct (Z.eq_dec b 0) as [-> | Nb].
    + rewrite Z.add_0_r.
      rewrite TapFacts.onTimeout_pending by reflexivity.
      rewrite TapFacts.onTimeout_stale by reflexivity. reflexivity.
    + rewrite (TapFacts.onTimeout_stale _ t)
        by (apply isLastTap_other; cbn; lia).
      rewrite TapFacts.onTimeout_pending by reflexivity. reflexivity.
Qed.

Lemma triple_tap_witness :
  Tap.classify
    [Tap.mkTap 1000 100%Z; Tap.mkTap (1000 + 100) 100%Z;
     Tap.mkTap (1000 + 150) 300%Z] (stateOf (playerAt 5 100))
  = [Tap.Double (Tap.isLeftHalf 100%Z (stateOf (playerAt 5 100))); Tap.Single].
Proof.
  apply (triple_tap (stateOf (playerAt 5 100)) 1000 100 150
           100%Z 100%Z 300%Z eq_refl); [discriminate | | ];
    unfold DOUBLE_TAP_DELAY; lia.
Defined.

(** X13: a timestamp of 0 in [lastTapRef] reads as no tap at all.  After
    a first tap at time 0, a second tap less than 300 ms later is not
    taken for a double tap: it replaces the first tap, whose timer then
    finds another timestamp in the ref, and the two taps are resolved as
    one single tap. *)
Theorem zero_timestamp_hides_tap (s : State) (d : Z) (x1 x2 : num) :
  lastTapRef s = None -> (0 <= d < DOUBLE_TAP_DELAY)%Z ->
  Tap.classify [Tap.mkTap 0 x1; Tap.mkTap d x2] s = [Tap.Single] /\
  Tap.isDoubleTap d (Some 0%Z) = false.
Proof.
  intros H Hd. split; [| reflexivity].
  unfold Tap.classify, Tap.run. cbn [fold_left].
  rewrite (TapFacts.first_tap s 0 x1 H).
  unfold Tap.tap, Tap.advance.
  cbn [Tap.timers Tap.fire Tap.due Tap.comp Tap.emitted
       Tap.timestampMs Tap.xPosition].
  destruct (Z.leb_spec (0 + DOUBLE_TAP_DELAY) d); [lia |].
  unfold Tap.handleVideoTap.
  cbn [Tap.comp Tap.timers Tap.emitted lastTapRef set_lastTapRef
       Tap.isDoubleTap Z.eqb negb andb Tap.setTimeout Tap.due].
  destruct (Z.leb_spec (0 + DOUBLE_TAP_DELAY) (d + DOUBLE_TAP_DELAY)); [| lia].
  cbn [Tap.settle Tap.now_of].
  destruct (Z.eq_dec d 0) as [-> | Nd].
  - rewrite TapFacts.onTimeout_pending by reflexivity.
    rewrite TapFacts.onTimeout_stale by reflexivity. reflexivity.
  - rewrite (TapFacts.onTimeout_stale _ 0)
      by (apply isLastTap_other; cbn; lia).
    rewrite TapFacts.onTimeout_pending by reflexivity. reflexivity.
Qed.

Lemma zero_timestamp_hides_tap_witness :
  Tap.classify [Tap.mkTap 0 100%Z; Tap.mkTap 100 100%Z]
    (stateOf (playerAt 5 100)) = [Tap.Single].
Proof.
  apply (zero_timestamp_hides_tap (stateOf (playerAt 5 100)) 100
           100%Z 100%Z eq_refl). unfold DOUBLE_TAP_DELAY. lia.
Defined.

Lemma lone_tap_world (s : State) (t : Z) (x : num) :
  lastTapRef s = None ->
  Tap.run [Tap.mkTap t x] (Tap.initialWorld s)
  = Tap.mkWorld
      (set_lastTapRef None (handleSingleTap (set_lastTapRef (Some t) s)))
      [] [Tap.Single].
Proof.
  intro H. unfold Tap.run. cbn [fold_left].
  rewrite (TapFacts.first_tap s t x H).
  cbn [Tap.timers Tap.settle Tap.now_of].
  rewrite TapFacts.onTimeout_pending by reflexivity. reflexivity.
Qed.

Lemma pair_tap_world (s : State) (t d : Z) (x1 x2 : num) :
  lastTapRef s = None -> t <> 0%Z -> (d < DOUBLE_TAP_DELAY)%Z ->
  Tap.run [Tap.mkTap t x1; Tap.mkTap (t + d) x2] (Tap.initialWorld s)
  = Tap.mkWorld
      (set_lastTapRef None (handleDoubleTap x2 (set_lastTapRef (Some t) s)))
      [] [Tap.Double (Tap.isLeftHalf x2 s)].
Proof.
  intros H Ht Hd. unfold Tap.run.
  rewrite (double_tap_world s t d x1 x2 H Ht Hd).
  cbn [Tap.timers Tap.settle Tap.now_of].
  rewrite TapFacts.onTimeout_stale by reflexivity. reflexivity.
Qed.

(** X14: a single tap and a double tap do different things and nothing
    of each other's.  A lone tap, once resolved, has toggled playback
    and shown the play/pause overlay, and has left the position and the
    seek indicator alone.  A double tap has moved the position as the
    seek of its half does, shown the seek indicator with the direction
    of that half, and has left playback and the play/pause overlay
    alone. *)
Theorem single_and_double_tap_effects (s : State) (p : Player) (t d : Z)
    (x1 x2 : num) :
  lastTapRef s = None -> t <> 0%Z -> player s = Some p ->
  let lone := Tap.comp (Tap.run [Tap.mkTap t x1] (Tap.initialWorld s)) in
  let pair :=
    Tap.comp (Tap.run [Tap.mkTap t x1; Tap.mkTap (t + d) x2]
                (Tap.initialWorld s)) in
  (position lone = position s /\
   currentTime lone = currentTime s /\
   player lone = Some (set_p_playing (negb (p_playing p)) p) /\
   isPlaying lone = negb (p_playing p) /\
   showPlayPauseOverlay lone = true /\
   showSeekIndicator lone = showSeekIndicator s /\
   seekDirection lone = seekDirection s) /\
  ((d < DOUBLE_TAP_DELAY)%Z ->
   position pair
   = position (if Tap.isLeftHalf x2 s then seekBackward s else seekForward s) /\
   showSeekIndicator pair = true /\
   seekDirection pair
   = Some (if Tap.isLeftHalf x2 s then backward else forward) /\
   (exists p', player pair = Some p' /\ p_playing p' = p_playing p) /\
   isPlaying pair = isPlaying s /\
   showPlayPauseOverlay pair = showPlayPauseOverlay s).
Proof.
  intros H Ht Hp lone pair. split.
  - subst lone. rewrite (lone_tap_world s t x1 H). cbn [Tap.comp].
    unfold handleSingleTap, togglePlayPause, position. simpl_state.
    rewrite Hp. destruct p as [c du pl m st].
    destruct pl; simpl_state; cbn; repeat split.
  - intro Hd. subst pair. rewrite (pair_tap_world s t d x1 x2 H Ht Hd).
    cbn [Tap.comp]. unfold handleDoubleTap. cbv zeta. simpl_state.
    change (x2 <? screenWidth s / 2%Z)%num with (Tap.isLeftHalf x2 s).
    destruct (Tap.isLeftHalf x2 s);
      unfold seekBackward, seekForward, position; simpl_state; rewrite Hp;
      simpl_state; repeat split; eexists; split; reflexivity.
Qed.

Lemma single_and_double_tap_effects_witness :
  isPlaying
    (Tap.comp (Tap.run [Tap.mkTap 1000 100%Z]
                 (Tap.initialWorld (stateOf (playerAt 5 100))))) = false.
Proof.
  destruct (single_and_double_tap_effects (stateOf (playerAt 5 100))
              (playerAt 5 100) 1000 100 100%Z 100%Z eq_refl)
    as [(_ & _ & _ & E & _) _]; [discriminate | reflexivity | exact E].
Defined.

(** ** More on the auto-hide of the overlays *)

Module OverlayFacts.

Import Overlay.

Section Effect.

Variable delay : Z.

(** A trigger on a hidden overlay with nothing pending arms one timer. *)
Lemma setShown_true_hidden (t : Z) (r : option positive) (n : positive) :
  setShown delay true t (mkOverlay false r [] n)
  = mkOverlay true (Some n) [(n, (t + delay)%Z)] (Pos.succ n).
Proof. destruct r; reflexivity. Qed.

(** A trigger on an overlay that is shown changes nothing. *)
Lemma setShown_true_shown (t : Z) (o : Overlay) :
  shown o = true -> setShown delay true t o = o.
Proof. intro H. unfold setShown. now rewrite H. Qed.

(** The expiry of the one pending timer hides the overlay. *)
Lemma advance_expired (t d : Z) (h : positive) (r : option positive)
    (n : positive) :
  (d <= t)%Z ->
  advance delay t (mkOverlay true r [(h, d)] n) = mkOverlay false r [] n.
Proof.
  intro H. unfold advance. cbn [pending List.length expire].
  destruct (Z.leb_spec d t); [| lia]. destruct r; reflexivity.
Qed.

Lemma advance_waiting (t d : Z) (h : positive) (o : Overlay) :
  pending o = [(h, d)] -> (t < d)%Z -> advance delay t o = o.
Proof.
  intros H L. unfold advance. rewrite H. cbn [List.length expire].
  rewrite H. destruct (Z.leb_spec d t); [lia | reflexivity].
Qed.

Lemma advance_idle (t : Z) (o : Overlay) :
  pending o = [] -> advance delay t o = o.
Proof. intro H. unfold advance. rewrite H. cbn. now rewrite H. Qed.

End Effect.

End OverlayFacts.

(** X15: triggers during the countdown are absorbed, however many.
    After a trigger at [t0], with further triggers that all fall before
    the expiry [t0 + delay], the overlay is on screen at a later time
    [t] exactly when [t < t0 + delay]: none of them moves the expiry. *)
Theorem overlay_absorbs_retriggers (delay t0 : Z) (ts : list Z) (t : Z) :
  Forall (fun ti => (t0 <= ti < t0 + delay)%Z) ts ->
  Forall (fun ti => (ti <= t)%Z) ts -> (t0 <= t)%Z ->
  Overlay.visibleAt delay (t0 :: ts) t = (t <? t0 + delay)%Z.
Proof.
  intros F _ _. unfold Overlay.visibleAt. cbn [fold_left].
  assert (E0 : Overlay.trigger delay Overlay.initialOverlay t0
               = Overlay.mkOverlay true (Some 1%positive)
                   [(1%positive, (t0 + delay)%Z)] 2%positive) by reflexivity.
  rewrite E0. clear E0.
  assert (E : fold_left (Overlay.trigger delay) ts
                (Overlay.mkOverlay true (Some 1%positive)
                   [(1%positive, (t0 + delay)%Z)] 2%positive)
              = Overlay.mkOverlay true (Some 1%positive)
                  [(1%positive, (t0 + delay)%Z)] 2%positive).
  { induction ts as [| ti ts IH]; cbn [fold_left]; [reflexivity |].
    inversion F as [| ? ? Hi F']; subst.
    unfold Overlay.trigger at 2.
    rewrite (OverlayFacts.advance_waiting delay ti (t0 + delay) 1)
      by (reflexivity || lia).
    rewrite OverlayFacts.setShown_true_shown by reflexivity.
    now apply IH. }
  rewrite E. destruct (Z.ltb_spec t (t0 + delay)) as [W | W].
  - now rewrite (OverlayFacts.advance_waiting delay t (t0 + delay) 1).
  - now rewrite OverlayFacts.advance_expired.
Qed.

Lemma overlay_absorbs_retriggers_witness :
  Overlay.visibleAt 2500 [0; 1000; 2000; 2400]%Z 3000 = (3000 <? 0 + 2500)%Z.
Proof.
  apply (overlay_absorbs_retriggers 2500 0 [1000; 2000; 2400]%Z 3000);
    [repeat constructor; lia | repeat constructor; lia | lia].
Defined.

Module BatchedFacts.

Import Batched.

Lemma one_timer_step (o : Overlay) (e : Event) :
  one_timer o -> one_timer (step o e).
Proof.
  intro I. destruct o as [f r ref pd n]. unfold one_timer in *. cbn in I.
  destruct pd as [| h [| ? ?]]; [| | contradiction].
  - destruct e; cbn; trivial.
    unfold render. cbn [flag rendered].
    destruct (Bool.eqb f r); cbn; trivial.
    destruct f, ref; cbn; auto.
  - destruct I as (-> & -> & ->). destruct e; cbn; auto.
Qed.

Lemma one_timer_run (evs : list Event) (o : Overlay) :
  one_timer o -> one_timer (fold_left step evs o).
Proof.
  revert o. induction evs as [| e evs IH]; intros o I; cbn [fold_left];
    [exact I | apply IH, one_timer_step, I].
Qed.

End BatchedFacts.

(** X16: the timer of an auto-hide effect, whenever React chooses to
    render.  After any triggers, timer callbacks and renders, in any
    order, at most one timer is pending; the ref holds its handle; and
    a timer is pending only while the overlay is shown.  The converse
    fails: when the callback that hides the overlay and a new trigger
    both run before the next render, that render sees the flag it saw
    before and skips the effect, so the overlay is shown with no timer
    pending, and no later trigger, callback or render hides it. *)
Theorem overlay_timer_under_batching (evs : list Batched.Event) :
  let o := Batched.run evs in
  (List.length (Batched.pending o) <= 1)%nat /\
  (forall h, In h (Batched.pending o) -> Batched.timeoutRef o = Some h) /\
  (Batched.pending o <> [] ->
   Batched.flag o = true /\ Batched.rendered o = true) /\
  (let stuck :=
     Batched.run [Batched.Trigger; Batched.Render; Batched.Timeout;
                  Batched.Trigger; Batched.Render] in
   Batched.flag stuck = true /\ Batched.rendered stuck = true /\
   Batched.pending stuck = [] /\
   forall evs', fold_left Batched.step evs' stuck = stuck).
Proof.
  intro o.
  assert (I : one_timer o)
    by (apply BatchedFacts.one_timer_run; exact Logic.I).
  split; [| split; [| split]].
  - unfold one_timer in I. destruct (Batched.pending o) as [| h [| ? ?]];
      cbn; [lia | lia | contradiction].
  - unfold one_timer in I. destruct (Batched.pending o) as [| h [| ? ?]];
      [intros ? [] | | contradiction].
    intros h' [<- | []]. apply I.
  - unfold one_timer in I. destruct (Batched.pending o) as [| h [| ? ?]];
      [intro N; now elim N | intros _; split; apply I | contradiction].
  - cbn zeta. split; [reflexivity |]. split; [reflexivity |].
    split; [reflexivity |].
    intro evs'. induction evs' as [| e evs' IH]; [reflexivity |].
    cbn [fold_left].
    replace (Batched.step
               (Batched.run [Batched.Trigger; Batched.Render; Batched.Timeout;
                             Batched.Trigger; Batched.Render]) e)
      with (Batched.run [Batched.Trigger; Batched.Render; Batched.Timeout;
                         Batched.Trigger; Batched.Render])
      by (destruct e; reflexivity).
    exact IH.
Qed.

(** * Properties of the screen with the web view *)

(** X17: the delay of a scheduled notification.  For every finite
    [delaySeconds] it is the whole number [max (1, floor (delaySeconds))],
    so at least 1, and a whole delay of at least 1 is passed on as it
    is; [null] and minus infinity give 1.  A NaN or [undefined] delay is
    not repaired: [Math.max (1, NaN)] is NaN.  The request handed to the
    platform carries exactly that delay. *)
Theorem notification_delay (q : Q) (n : Z) :
  (1 <= n)%Z ->
  WebView.delayOf (JNum (Fin q)) = IInt (Z.max 1 (Qfloor q)) /\
  (1 <= Z.max 1 (Qfloor q))%Z /\
  WebView.delayOf (JNum n) = IInt n /\
  WebView.delayOf JNull = IInt 1 /\
  WebView.delayOf (JNum NegInf) = IInt 1 /\
  WebView.delayOf (JNum NaN) = INaN /\
  WebView.delayOf JUndefined = INaN /\
  (forall title body d st,
     WebView.scheduled (WebView.scheduleNotification true title body d st)
     = (WebView.scheduled st ++ [WebView.requestOf title body d])%list /\
     WebView.seconds (WebView.trigger (WebView.requestOf title body d))
     = WebView.delayOf d).
Proof.
  intro H. repeat split; try reflexivity; try lia.
  unfold WebView.delayOf. cbn [toNumber of_Z Math_floor WebView.Math_max_int].
  rewrite (Qfloor_Z n). f_equal. lia.
Qed.

Lemma notification_delay_witness :
  WebView.delayOf (JNum (Fin (7 # 2))) = IInt (Z.max 1 (Qfloor (7 # 2))).
Proof.
  apply (notification_delay (7 # 2) 3). lia.
Defined.

(** X18: from a notification to the player.  Every notification this
    screen schedules carries the datum that the response listener looks
    for: tapping it navigates to the video player, once.  A notification
    with no such datum, or with another screen name, navigates nowhere.
    When the platform refuses to schedule, nothing is scheduled and the
    snackbar is left alone; one alert is raised instead. *)
Theorem scheduled_notification_opens_player (title body : string)
    (d : jsval) (st st' : WebView.Screen) (name : string) :
  name <> "VideoPlayer"%string ->
  (exists req,
     WebView.scheduled (WebView.scheduleNotification true title body d st)
     = (WebView.scheduled st ++ [req])%list /\
     WebView.navigated
       (WebView.onNotificationResponse
          (WebView.data_screen (WebView.content req)) st')
     = (WebView.navigated st' ++ ["VideoPlayer"%string])%list) /\
  WebView.onNotificationResponse (Some name) st' = st' /\
  WebView.onNotificationResponse None st' = st' /\
  (let st1 := WebView.scheduleNotification false title body d st in
   WebView.scheduled st1 = WebView.scheduled st /\
   WebView.snackbarVisible st1 = WebView.snackbarVisible st /\
   WebView.snackbarMessage st1 = WebView.snackbarMessage st /\
   WebView.alerts st1
   = (WebView.alerts st
        ++ [("Error"%string, "Failed to schedule notification"%string)])%list).
Proof.
  intro H. split; [| split; [| split]].
  - exists (WebView.requestOf title body d). split; reflexivity.
  - unfold WebView.onNotificationResponse.
    destruct (String.eqb_spec name "VideoPlayer");
      [contradiction | reflexivity].
  - reflexivity.
  - repeat split.
Qed.

Lemma scheduled_notification_opens_player_witness :
  WebView.onNotificationResponse (Some "WebView"%string) WebView.initialScreen
  = WebView.initialScreen.
Proof.
  apply (scheduled_notification_opens_player "t" "b" (JNum 3%Z)
           WebView.initialScreen WebView.initialScreen "WebView").
  discriminate.
Defined.

(** * Properties of the first version of the player screen *)

(** X19: the seeks of the first player screen never ask for a NaN
    position, because a missing, zero or NaN [positionMillis] is read
    as 0.  The backward target is never negative.  From a missing
    position the forward seek asks for 10000 ms and the backward seek
    for 0; from a position [q >= 0] they ask for [q + 10000], whatever
    the duration, and for [max (0, q - 10000)]. *)
Theorem legacy_seek_targets (st : Legacy.Status) (q : Q) :
  0 <= q ->
  isNaN (Legacy.seekForward st) = false /\
  isNaN (Legacy.seekBackward st) = false /\
  le 0%Z (Legacy.seekBackward st) /\
  (falsy (Legacy.positionMillis st) = true ->
   Legacy.seekForward st =n= Fin 10000 /\ Legacy.seekBackward st =n= Fin 0) /\
  (Legacy.positionMillis st = JNum (Fin q) ->
   Legacy.seekForward st =n= Fin (q + 10000) /\
   Legacy.seekBackward st =n= Fin (Qmax 0 (q - 10000))).
Proof.
  intro Hq. unfold Legacy.seekForward, Legacy.seekBackward,
    Legacy.currentPosition.
  assert (G : forall a : num, isNaN a = false ->
                              isNaN (Math_max 0%Z a) = false /\
                              le 0%Z (Math_max 0%Z a)).
  { intros a Ha. destruct a as [| | p |]; try discriminate; cbn.
    - split; [reflexivity | apply Qle_refl].
    - destruct (Qltb_spec (inject_Z 0) p); cbn; split; trivial.
      + now apply Qlt_le_weak.
      + apply Qle_refl.
    - now split. }
  assert (N : isNaN ((if falsy (Legacy.positionMillis st) then of_Z 0
                      else toNumber (Legacy.positionMillis st))
                     - 10000%Z)%num = false).
  { destruct (Legacy.positionMillis st) as [| | [| | p |]]; cbn;
      try reflexivity. now destruct (Qeq_bool p 0). }
  split; [| split; [apply G, N | split; [apply G, N | split]]].
  - destruct (Legacy.positionMillis st) as [| | [| | p |]]; cbn;
      try reflexivity. now destruct (Qeq_bool p 0).
  - intro F. rewrite F. split; reflexivity.
  - intro E. rewrite E. cbn [falsy truthy toNumber].
    destruct (Qeq_bool_spec q 0) as [Z0 | N0]; cbn [negb].
    + unfold of_Z. cbn [add sub neg]. split.
      * cbn. change (inject_Z 0) with 0. change (inject_Z 10000) with 10000.
        lra.
      * destruct (Math_max_Fin (inject_Z 0) (inject_Z 0 + - inject_Z 10000))
          as (r & Er & Hr). rewrite Er. cbn [eqv]. rewrite Hr.
        apply Q.max_compat; [reflexivity |].
        change (inject_Z 0) with 0. change (inject_Z 10000) with 10000. lra.
    + unfold of_Z. cbn [add sub neg]. split; [reflexivity |].
      destruct (Math_max_Fin (inject_Z 0) (q + - inject_Z 10000))
        as (r & Er & Hr). rewrite Er. exact Hr.
Qed.

Lemma legacy_seek_targets_witness :
  isNaN (Legacy.seekForward Legacy.emptyStatus) = false /\
  Legacy.seekForward Legacy.emptyStatus =n= Fin 10000.
Proof.
  destruct (legacy_seek_targets Legacy.emptyStatus 0) as (A & _ & _ & B & _).
  - discriminate.
  - split; [exact A | apply B; reflexivity].
Defined.
